(** * TrackTramReliability: a shallow embedding of the ingestion pipeline,
      the poller and the reference index builder, with the properties of
      the specification stated and settled against the code.

    Source files embedded here:
    - [src/track_tram_reliability/departures.py]
    - [src/track_tram_reliability/ingest.py] (with the unique constraint of [db.py])
    - [src/track_tram_reliability/poller.py]
    - [src/track_tram_reliability/gtfs_index.py]
    - [src/track_tram_reliability/print_label_stations.py]
    - [src/track_tram_reliability/cli.py] (the command [ingest])

    Conventions.  Python [int] is [Z]; a [float] is a mantissa and a binary
    exponent, and the conversions, the division and the rounding that the
    code performs on floats are computed exactly on them; [str] is
    [string] (a byte string: the lexicographic order on UTF-8 bytes is
    the order of code points that Python uses), with [upper] and [strip]
    acting on the ASCII letters and the ASCII white space;
    [Optional[T]] is [option T]; a [dict] whose iteration order is
    observable is an insertion-ordered association list, any other [dict]
    is a [gmap]; a [set] is a [gset], and every loop over a [set] goes
    through an explicit enumeration order, which Python leaves
    unspecified.  The SQLAlchemy session and the clock of the poller are
    explicit states passed along. *)

From Stdlib Require Import ZArith Lia List Ascii String.
From stdpp Require Import gmap strings list sorting.

(** ** Python values and arithmetic *)

Module Py.
Local Open Scope Z_scope.

(** A finite binary64 value is [m * 2^e]; [float('nan')] and the two
    infinities are separate. *)
Inductive pyfloat : Type :=
  | FNan
  | FInf (neg : bool)
  | FFin (m e : Z).

(** What [json.loads] can produce. *)
#[warnings="-register-all"]
Inductive json : Type :=
  | JNull
  | JBool (b : bool)
  | JInt (z : Z)
  | JFloat (f : pyfloat)
  | JStr (s : string)
  | JArr (l : list json)
  | JObj (l : list (string * json)).

(** [bool(v)]: the truth value used by [or], [if] and [not]. *)
Definition truthy (v : json) : bool :=
  match v with
  | JNull => false
  | JBool b => b
  | JInt z => negb (z =? 0)
  | JFloat (FFin m _) => negb (m =? 0)
  | JFloat _ => true
  | JStr s => negb (String.eqb s "")
  | JArr l => match l with [] => false | _ => true end
  | JObj l => match l with [] => false | _ => true end
  end.

(** [a or b]. *)
Definition py_or (a b : json) : json := if truthy a then a else b.

(** [item.get(k)] on a JSON object: a missing key reads as [None]. *)
Definition get (item : gmap string json) (k : string) : json :=
  default JNull (item !! k).

(** Nearest integer to [n / d] for [0 < d], ties to the even one. *)
Definition round_half_even_div (n d : Z) : Z :=
  let q := n / d in
  let r := n mod d in
  if 2 * r <? d then q
  else if d <? 2 * r then q + 1
  else if Z.even q then q else q + 1.

(** [b * 2^l <= n], also for a negative [l]. *)
Definition ge_scaled (n b l : Z) : bool :=
  if 0 <=? l then b * 2 ^ l <=? n else b <=? n * 2 ^ (- l).

(** The binary64 value nearest to [a / b] for [0 < b] (round to nearest,
    ties to even, 53 bits of precision, gradual underflow, overflow to
    infinity): what CPython computes for [a / b] on two [int]s and for
    [float(a)] with [b = 1]. *)
Definition round_ratio (a b : Z) : pyfloat :=
  if a =? 0 then FFin 0 0
  else
    let n := Z.abs a in
    let l := Z.log2 n - Z.log2 b in
    let ex := if ge_scaled n b l then l else l - 1 in
    let e := Z.max (ex - 52) (-1074) in
    let m := if 0 <=? e then round_half_even_div n (b * 2 ^ e)
             else round_half_even_div (n * 2 ^ (- e)) b in
    if (971 <? e) || ((e =? 971) && (2 ^ 53 <=? m)) then FInf (a <? 0)
    else FFin (Z.sgn a * m) e.

(** [float(z)] on an [int]; [None] is [OverflowError]. *)
Definition float_of_int (z : Z) : option pyfloat :=
  match round_ratio z 1 with
  | FInf _ => None
  | f => Some f
  end.

(** [a / b] on two [int]s with [0 < b]; [None] is [OverflowError]. *)
Definition truediv (a b : Z) : option pyfloat :=
  match round_ratio a b with
  | FInf _ => None
  | f => Some f
  end.

(** [int(f)] on a [float]: truncation toward zero; [None] is the
    [ValueError] of a NaN or the [OverflowError] of an infinity. *)
Definition int_of_float (f : pyfloat) : option Z :=
  match f with
  | FNan | FInf _ => None
  | FFin m e => Some (if 0 <=? e then m * 2 ^ e else Z.quot m (2 ^ (- e)))
  end.

(** [round(f)] on a [float], no [ndigits]: nearest [int], ties to even. *)
Definition py_round (f : pyfloat) : option Z :=
  match f with
  | FNan | FInf _ => None
  | FFin m e => Some (if 0 <=? e then m * 2 ^ e
                      else round_half_even_div m (2 ^ (- e)))
  end.

(** [c.upper()] and [s.upper()] on ASCII letters; other bytes are kept. *)
Definition upper_ascii (c : ascii) : ascii :=
  let n := nat_of_ascii c in
  if ((97 <=? n) && (n <=? 122))%nat then ascii_of_nat (n - 32) else c.

Fixpoint upper (s : string) : string :=
  match s with
  | EmptyString => EmptyString
  | String c s' => String (upper_ascii c) (upper s')
  end.

(** The ASCII characters that [str.strip()] removes. *)
Definition is_space (c : ascii) : bool :=
  let n := nat_of_ascii c in
  (((9 <=? n) && (n <=? 13)) || ((28 <=? n) && (n <=? 32)))%nat.

Fixpoint lstrip (s : string) : string :=
  match s with
  | EmptyString => EmptyString
  | String c s' => if is_space c then lstrip s' else s
  end.

Fixpoint rstrip (s : string) : string :=
  match s with
  | EmptyString => EmptyString
  | String c s' =>
    match rstrip s' with
    | EmptyString => if is_space c then EmptyString else String c EmptyString
    | r => String c r
    end
  end.

(** [s.strip()]. *)
Definition strip (s : string) : string := lstrip (rstrip s).

(** [s.split(sep)] for a one-character separator. *)
Fixpoint split (sep : ascii) (s : string) : list string :=
  match s with
  | EmptyString => [EmptyString]
  | String c s' =>
    if Ascii.eqb c sep then EmptyString :: split sep s'
    else match split sep s' with
         | [] => [String c EmptyString]
         | h :: t => String c h :: t
         end
  end.

(** [sep.join(parts)]. *)
Definition join (sep : string) (parts : list string) : string :=
  match parts with
  | [] => EmptyString
  | h :: t => fold_left (fun acc p => String.append (String.append acc sep) p) t h
  end.

(** [sorted(l)] on a list of [str]. *)
Definition sorted (l : list string) : list string := merge_sort String.le l.

(** [c.lower()] and [s.lower()] on ASCII letters; other bytes are kept. *)
Definition lower_ascii (c : ascii) : ascii :=
  let n := nat_of_ascii c in
  if ((65 <=? n) && (n <=? 90))%nat then ascii_of_nat (n + 32) else c.

Fixpoint lower (s : string) : string :=
  match s with
  | EmptyString => EmptyString
  | String c s' => String (lower_ascii c) (lower s')
  end.

End Py.

(** ** departures.py *)

Module Departures.
Import Py.
Local Open Scope Z_scope.

(** models.py, [class Departure]. *)
Record Departure : Type := {
  station_id : string;
  planned_departure_time : option Z;
  realtime_departure_time : option Z;
  delay_in_minutes : option Z;
  transport_type : option string;
  label : option string;
  destination : option string;
  cancelled : bool;
  platform : option string;
  realtime : bool;
  fetched_at : Z
}.

Section WithFloatParser.

(** Python's builtin [float(s)] on a [str]; [None] is its [ValueError]. *)
Variable float_of_str : string -> option pyfloat.

(** [float(value)]; [None] is the exception raised ([TypeError] on
    [None], a list or an object). *)
Definition float_of (value : json) : option pyfloat :=
  match value with
  | JBool b => Some (FFin (if b then 1 else 0) 0)
  | JInt z => float_of_int z
  | JFloat f => Some f
  | JStr s => float_of_str s
  | JNull | JArr _ | JObj _ => None
  end.

(** [_normalize_epoch_seconds]. *)
Definition _normalize_epoch_seconds (value : json) : option Z :=
  match value with
  | JNull => None
  | _ =>
    match float_of value ≫= int_of_float with
    | None => None
    | Some ivalue =>
      if 10000000000 <? ivalue then Some (ivalue / 1000) else Some ivalue
    end
  end.

(** The local variables [planned], [realtime] and [delay] of one round of
    the loop of [fetch_departures]; the outer [None] of [item_delay] is an
    exception escaping from [round] or the division. *)
Definition item_planned (item : gmap string json) : option Z :=
  _normalize_epoch_seconds
    (py_or (get item "planned_departure_time") (get item "plannedDepartureTime")).

Definition item_realtime (item : gmap string json) : option Z :=
  _normalize_epoch_seconds
    (py_or (get item "realtime_departure_time") (get item "realtimeDepartureTime")).

Definition item_delay (item : gmap string json) : option json :=
  let delay := py_or (get item "delay_in_minutes") (get item "delayInMinutes") in
  match delay, item_planned item, item_realtime item with
  | JNull, Some planned, Some realtime =>
      d ← truediv (realtime - planned) 60 ≫= py_round; Some (JInt d)
  | _, _, _ => Some delay
  end.

End WithFloatParser.

(** What the record has when upstream gave no delay: the outcome of
    [int(round((realtime - planned) / 60))] when both times are there. *)
Definition derived_delay (planned realtime : option Z) : option json :=
  match planned, realtime with
  | Some p, Some r => d ← truediv (r - p) 60 ≫= py_round; Some (JInt d)
  | _, _ => Some JNull
  end.

End Departures.

(** ** ingest.py, with the persistence session it runs on *)

Module Ingest.
Import Py Departures.
Local Open Scope Z_scope.

(** models.py, [class Station]. *)
Record Station : Type := {
  id : string;
  name : string;
  place : option string;
  latitude : option pyfloat;
  longitude : option pyfloat;
  diva_id : option Z;
  tariff_zones : option string;
  products : option (list string)
}.

(** [s_prods & products] is non-empty, for the upper-cased request [ps]. *)
Definition shares_product (ps : gset string) (declared : list string) : bool :=
  bool_decide ((list_to_set (upper <$> declared) : gset string) ∩ ps ≠ ∅).

(** [filter_stations_by_products]. *)
Definition filter_stations_by_products
    (stations : list Station) (products : option (gset string)) : list Station :=
  match products with
  | None => stations
  | Some ps =>
    if bool_decide (ps = ∅) || bool_decide ("ALL" ∈ ps) then stations
    else
      let ps' : gset string := set_map upper ps in
      List.filter
        (fun s => match Ingest.products s with
                  | None | Some [] => false
                  | Some declared => shares_product ps' declared
                  end)
        stations
  end.

(** The specification's words for the narrowing step: the station
    declares a product that, letter case aside, is one of the requested
    ones. *)
Definition declares_requested (requested : gset string) (s : Station) : bool :=
  match products s with
  | None => false
  | Some declared =>
    existsb (fun p => existsb (fun q => String.eqb (upper p) (upper q))
                              (elements requested))
            declared
  end.

(** *** The store and the session

    The table [departures_raw] is a list of rows in insertion order; a row
    carries the columns of [DepartureRawOrm] other than the surrogate [id],
    which are the fields of [Departure].  A session made by
    [create_session_maker] ([autoflush=False], [autocommit=False]) keeps
    the rows of the committed table, the rows its open transaction has
    inserted, and the objects added but not yet flushed.  The session
    begins a transaction on its first use and keeps it until [commit] or
    [rollback]; [insert_departures] opens no savepoint
    ([begin_nested]), so there is one transaction from the first [add] to
    the next [rollback] or [commit]. *)
Record Session : Type := {
  committed : list Departure;
  in_txn : list Departure;
  pending : list Departure
}.

(** Two column values collide in a unique index only when neither is
    NULL (SQLite, the database of the default [db_url], and the SQL
    standard). *)
Definition same_notnull {A} (eqb : A -> A -> bool) (x y : option A) : bool :=
  match x, y with
  | Some a, Some b => eqb a b
  | _, _ => false
  end.

(** db.py, [uq_departure_identity]: the rows [a] and [b] cannot both be
    in the table. *)
Definition uq_departure_identity (a b : Departure) : bool :=
  String.eqb (station_id a) (station_id b)
  && same_notnull String.eqb (transport_type a) (transport_type b)
  && same_notnull String.eqb (label a) (label b)
  && same_notnull String.eqb (destination a) (destination b)
  && same_notnull Z.eqb (planned_departure_time a) (planned_departure_time b).

(** The rows a statement of the session sees in the table. *)
Definition visible_rows (s : Session) : list Departure :=
  committed s ++ in_txn s.

(** [Session()] on a store. *)
Definition open_session (store : list Departure) : Session :=
  {| committed := store; in_txn := []; pending := [] |}.

(** [session.add(rec)]. *)
Definition add (s : Session) (rec : Departure) : Session :=
  {| committed := committed s; in_txn := in_txn s; pending := pending s ++ [rec] |}.

(** [session.rollback()]: the open transaction is abandoned as a whole,
    and the objects added during it, flushed or not, leave the session. *)
Definition rollback (s : Session) : Session :=
  {| committed := committed s; in_txn := []; pending := [] |}.

(** The INSERTs of a flush, one pending object after the other; [None] is
    the [IntegrityError] of the unique constraint. *)
Fixpoint insert_rows (table txn new : list Departure) : option (list Departure) :=
  match new with
  | [] => Some txn
  | r :: new' =>
    if existsb (uq_departure_identity r) (table ++ txn) then None
    else insert_rows table (txn ++ [r]) new'
  end.

(** [session.flush()].  [inl] is the normal return.  [inr] is the session
    left behind when [IntegrityError] is raised: a failed flush rolls the
    whole database transaction back, so the rows of earlier flushes of
    this transaction are gone with it. *)
Definition flush (s : Session) : Session + Session :=
  match insert_rows (committed s) (in_txn s) (pending s) with
  | Some txn => inl {| committed := committed s; in_txn := txn; pending := [] |}
  | None => inr {| committed := committed s; in_txn := []; pending := pending s |}
  end.

(** [session.commit()]: flush, then the transaction's rows become part of
    the table; [None] is an exception of the flush. *)
Definition commit (s : Session) : option Session :=
  match flush s with
  | inl s' => Some {| committed := committed s' ++ in_txn s'; in_txn := []; pending := [] |}
  | inr _ => None
  end.

(** One round of the loop of [insert_departures]; [rec] has the eleven
    fields of [d]. *)
Definition insert_one (st : Session * Z * Z) (d : Departure) : Session * Z * Z :=
  let '(session, inserted, skipped) := st in
  let rec := d in
  match flush (add session rec) with
  | inl session' => (session', inserted + 1, skipped)
  | inr session' => (rollback session', inserted, skipped + 1)
  end.

(** [insert_departures]: the session after the call and the pair
    [(inserted, skipped)] returned. *)
Definition insert_departures (session : Session) (departures : list Departure)
    : Session * Z * Z :=
  fold_left insert_one departures (session, 0, 0).

(** The test's use of it, and the body of a one-station batch:
    [with Session() as session: insert_departures(...); session.commit()]. *)
Definition insert_and_commit (store : list Departure) (departures : list Departure)
    : option (list Departure * Z * Z) :=
  let '(session, inserted, skipped) := insert_departures (open_session store) departures in
  s ← commit session; Some (committed s, inserted, skipped).

(** The persistence block of [ingest_departures_for_products]: one
    session for all the results, committed once at the end.  Returns the
    table and [(stations_processed, rows_inserted, rows_skipped)]. *)
Definition persist_step (st : Session * Z * Z * Z) (res : string * list Departure)
    : Session * Z * Z * Z :=
  let '(session, stations_processed, rows_inserted, rows_skipped) := st in
  let '(session', ins, skip) := insert_departures session (snd res) in
  (session', stations_processed + 1, rows_inserted + ins, rows_skipped + skip).

Definition persist_results (store : list Departure)
    (results : list (string * list Departure))
    : option (list Departure * Z * Z * Z) :=
  let '(session, n, ins, skip) :=
    fold_left persist_step results (open_session store, 0, 0, 0) in
  s ← commit session; Some (committed s, n, ins, skip).

(** *** The rest of a pass: choosing the stations, filtering by label,
    keeping the stations table *)

(** [_norm_label] and [_norm_name]; [str(val)] of a [str] is [val]. *)
Definition _norm_label (val : option string) : option string :=
  (fun v => upper (strip v)) <$> val.

Definition _norm_name (val : option string) : option string :=
  (fun v => lower (strip v)) <$> val.

(** The stations a pass fetches: the product filter, then
    [if station_names: ...], then [if station_ids: ...]. *)
Definition select_stations (stations : list Station)
    (products station_names station_ids : option (gset string)) : list Station :=
  let filtered := filter_stations_by_products stations products in
  let filtered :=
    match station_names with
    | None => filtered
    | Some names =>
      if bool_decide (names = ∅) then filtered
      else
        let name_set : gset (option string) :=
          set_map (fun x => _norm_name (Some x)) names in
        List.filter (fun s => bool_decide (_norm_name (Some (name s)) ∈ name_set))
                    filtered
    end in
  match station_ids with
  | None => filtered
  | Some ids =>
    if bool_decide (ids = ∅) then filtered
    else
      let id_set : gset string := set_map strip ids in
      List.filter (fun s => bool_decide (id s ∈ id_set)) filtered
  end.

(** [norm_labels = {_norm_label(x) for x in labels} if labels else None]. *)
Definition label_set (labels : option (gset string)) : option (gset (option string)) :=
  match labels with
  | None => None
  | Some ls =>
    if bool_decide (ls = ∅) then None
    else Some (set_map (fun x => _norm_label (Some x)) ls)
  end.

(** [_fetch_for_station].  [fetch station_id] is what [fetch_departures]
    does for the station during this pass: [None] when it raises. *)
Definition _fetch_for_station (norm_labels : option (gset (option string)))
    (fetch : string -> option (list Departure)) (station_id : string)
    : option (string * list Departure) :=
  deps ← fetch station_id;
  Some (station_id,
        match norm_labels with
        | Some ls =>
          List.filter (fun d => bool_decide (_norm_label (label d) ∈ ls)) deps
        | None => deps
        end).

(** A row of the table [stations] without its key [station_id]. *)
Record StationOrm : Type := {
  orm_name : option string;
  orm_place : option string;
  orm_latitude : option pyfloat;
  orm_longitude : option pyfloat;
  orm_diva_id : option Z;
  orm_tariff_zones : option string;
  orm_products : option (list string);
  last_seen_at : option Z
}.

(** [StationOrm(station_id=...)]: every other column is NULL. *)
Definition blank_orm : StationOrm :=
  {| orm_name := None; orm_place := None; orm_latitude := None;
     orm_longitude := None; orm_diva_id := None; orm_tariff_zones := None;
     orm_products := None; last_seen_at := None |}.

(** The seven assignments [orm.name = s.name] to [orm.products = s.products]. *)
Definition assign (orm : StationOrm) (s : Station) : StationOrm :=
  {| orm_name := Some (name s);
     orm_place := place s;
     orm_latitude := latitude s;
     orm_longitude := longitude s;
     orm_diva_id := diva_id s;
     orm_tariff_zones := tariff_zones s;
     orm_products := products s;
     last_seen_at := last_seen_at orm |}.

(** The session of [sync_stations_from_cache_to_db]: the committed table,
    the identity map (the rows loaded so far, with the values assigned to
    them) and the new objects added, in order.  There is no flush before
    the commit ([autoflush=False]), so a new object is in neither the
    table nor the identity map while the loop runs. *)
Record StationSession : Type := {
  st_table : gmap string StationOrm;
  st_identity : gmap string StationOrm;
  st_new : list (string * StationOrm)
}.

(** [session.get(StationOrm, key)]: from the identity map, else from the
    table. *)
Definition session_get (sess : StationSession) (key : string) : option StationOrm :=
  match st_identity sess !! key with
  | Some orm => Some orm
  | None => st_table sess !! key
  end.

(** One round of the loop of [sync_stations_from_cache_to_db]; the state
    is the session and [count]. *)
Definition sync_step (st : StationSession * Z) (s : Station) : StationSession * Z :=
  let '(sess, count) := st in
  let sess' :=
    match session_get sess (id s) with
    | Some orm =>
      {| st_table := st_table sess;
         st_identity := <[id s := assign orm s]> (st_identity sess);
         st_new := st_new sess |}
    | None =>
      {| st_table := st_table sess;
         st_identity := st_identity sess;
         st_new := st_new sess ++ [(id s, assign blank_orm s)] |}
    end in
  (sess', count + 1).

(** [session.commit()] of that session: the UPDATEs of the loaded rows and
    the INSERTs of the new objects; [None] is the [IntegrityError] of two
    new objects with one primary key. *)
Definition station_commit (sess : StationSession) : option (gmap string StationOrm) :=
  if bool_decide (NoDup (st_new sess).*1) then
    Some (list_to_map (st_new sess) ∪ st_identity sess ∪ st_table sess)
  else None.

(** [sync_stations_from_cache_to_db] on the stations read from the cache:
    the table after the commit and the count returned. *)
Definition sync_stations_from_cache_to_db (table : gmap string StationOrm)
    (stations : list Station) : option (gmap string StationOrm * Z) :=
  let '(sess, count) :=
    fold_left sync_step stations
      ({| st_table := table; st_identity := ∅; st_new := [] |}, 0) in
  t ← station_commit sess; Some (t, count).

(** The two tables. *)
Record database : Type := {
  stations_table : gmap string StationOrm;
  departures_raw : list Departure
}.

(** [ingest_departures_for_products] on the stations read from the
    cache.  [fetch] is the outcome of each station's fetch and
    [completion] the order in which [as_completed] yields the futures.
    Returns the database after the pass and
    [(stations_processed, rows_inserted, rows_skipped)]; [None] is an
    exception of the station sync or of the commit. *)
Definition ingest_departures_for_products (db : database) (cache : list Station)
    (products labels station_names station_ids : option (gset string))
    (fetch : string -> option (list Departure))
    (completion : list (option (string * list Departure))
                  -> list (option (string * list Departure)))
    : option (database * (Z * Z * Z)) :=
  let filtered := select_stations cache products station_names station_ids in
  synced ← sync_stations_from_cache_to_db (stations_table db) cache;
  let norm_labels := label_set labels in
  let futures := (fun s => _fetch_for_station norm_labels fetch (id s)) <$> filtered in
  let results := omap (fun r => r) (completion futures) in
  persisted ← persist_results (departures_raw db) results;
  Some ({| stations_table := synced.1; departures_raw := persisted.1.1.1 |},
        (persisted.1.1.2, persisted.1.2, persisted.2)).

(** An order of completion yields every future once. *)
Definition completes {A} (completion : list A -> list A) : Prop :=
  forall l, completion l ≡ₚ l.

(** No two rows of the table collide under [uq_departure_identity]. *)
Fixpoint table_unique (table : list Departure) : bool :=
  match table with
  | [] => true
  | r :: table' =>
    negb (existsb (uq_departure_identity r) table') && table_unique table'
  end.


(** The state of the loop over the results of a pass after the results
    [seen]: every result went through [insert_departures] on the one
    session. *)
Definition pass_state (store : list Departure) (seen : list (string * list Departure))
    (st : Session * Z * Z * Z) : Prop :=
  committed st.1.1.1 = store
  /\ pending st.1.1.1 = []
  /\ st.1.1.2 = Z.of_nat (length seen)
  /\ st.1.2 + st.2 = Z.of_nat (length (concat seen.*2))
  /\ 0 <= st.1.2 /\ 0 <= st.2.

(** What one round of the loop of [sync_stations_from_cache_to_db]
    amounts to on the table: the row of the station's id, blank if it is
    missing, takes the station's fields. *)
Definition upsert (table : gmap string StationOrm) (s : Station)
    : gmap string StationOrm :=
  <[id s := assign (default blank_orm (table !! id s)) s]> table.

(** The ids of the cache, in order, that the table does not have. *)
Definition new_ids (table : gmap string StationOrm) (stations : list Station)
    : list string :=
  List.filter (fun k => bool_decide (table !! k = None)) (id <$> stations).

(** The last station of the cache with the id [k]. *)
Definition last_with (k : string) (stations : list Station) : option Station :=
  last (List.filter (fun s => String.eqb (id s) k) stations).

(** The state of the loop of [sync_stations_from_cache_to_db] after the
    stations [seen]. *)
Definition sync_state (table : gmap string StationOrm) (seen : list Station)
    (st : StationSession * Z) : Prop :=
  st_table st.1 = table
  /\ dom (st_identity st.1) ⊆ dom table
  /\ (st_new st.1).*1 = new_ids table seen
  /\ st.2 = Z.of_nat (length seen)
  /\ (NoDup (st_new st.1).*1 ->
      list_to_map (st_new st.1) ∪ st_identity st.1 ∪ table
      = fold_left upsert seen table).

End Ingest.

(** ** poller.py *)

Module Poller.
Local Open Scope Z_scope.

(** What the surroundings do during one round of the loop of
    [run_poller]: how long the ingestion pass takes, whether it returns or
    raises, and whether a signal sets [stop_flag] before the check that
    follows the pass, or later, during the closing sleep. *)
Record round_env : Type := {
  pass_duration : Z;
  pass_ok : bool;
  stop_before_check : bool;
  stop_during_sleep : bool
}.

(** The clock read by [time.time()], the variable [backoff], the flag and
    the arguments of the calls of [time.sleep] so far, oldest first.  A
    sleep lasts as long as it was asked to. *)
Record state : Type := {
  now : Z;
  backoff : Z;
  stop : bool;
  sleeps : list Z
}.

Definition initial (t : Z) : state :=
  {| now := t; backoff := 1; stop := false; sleeps := [] |}.

(** [time.sleep(d)]. *)
Definition sleep (st : state) (d : Z) : state :=
  {| now := now st + d; backoff := backoff st; stop := stop st;
     sleeps := sleeps st ++ [d] |}.

(** The [try] statement of the loop body: the pass, then either the reset
    of [backoff] or the backoff sleep and the doubling. *)
Definition attempt (ev : round_env) (st : state) : state :=
  let st1 := {| now := now st + pass_duration ev; backoff := backoff st;
                stop := stop st; sleeps := sleeps st |} in
  if pass_ok ev then
    {| now := now st1; backoff := 1; stop := stop st1; sleeps := sleeps st1 |}
  else
    let st2 := sleep st1 (backoff st1) in
    {| now := now st2; backoff := Z.min (backoff st2 * 2) 60;
       stop := stop st2; sleeps := sleeps st2 |}.

(** [sleep_time] as the loop body computes it for a round started at [t0]. *)
Definition sleep_time (polling_interval_seconds t0 : Z) (st : state) : Z :=
  let elapsed := now st - t0 in
  Z.max 0 (polling_interval_seconds - elapsed).

(** One round of the [while] loop, entered with the flag clear. *)
Definition round (polling_interval_seconds : Z) (ev : round_env) (st : state) : state :=
  let t0 := now st in
  let st' := attempt ev st in
  let d := sleep_time polling_interval_seconds t0 st' in
  if stop_before_check ev then
    {| now := now st'; backoff := backoff st'; stop := true; sleeps := sleeps st' |}
  else
    let st'' := sleep st' d in
    {| now := now st''; backoff := backoff st'';
       stop := stop_during_sleep ev; sleeps := sleeps st'' |}.

(** The loop, for as many rounds as the surroundings are described. *)
Fixpoint run (polling_interval_seconds : Z) (envs : list round_env) (st : state) : state :=
  match envs with
  | [] => st
  | ev :: envs' =>
    if stop st then st
    else run polling_interval_seconds envs' (round polling_interval_seconds ev st)
  end.

(** [run_poller] started at time [t]. *)
Definition run_poller (polling_interval_seconds : Z) (envs : list round_env) (t : Z) : state :=
  run polling_interval_seconds envs (initial t).

(** The value of [backoff] after [k] failures in a row, from [b]. *)
Fixpoint doubled (k : nat) (b : Z) : Z :=
  match k with
  | O => b
  | S k' => doubled k' (Z.min (b * 2) 60)
  end.

(** No signal arrives during the round. *)
Definition undisturbed (ev : round_env) : Prop :=
  stop_before_check ev = false /\ stop_during_sleep ev = false.

(** The pass returns within the interval. *)
Definition on_time (interval : Z) (ev : round_env) : Prop :=
  pass_ok ev = true /\ 0 <= pass_duration ev <= interval.

End Poller.

(** ** gtfs_index.py *)

Module GtfsIndex.
Import Py.

(** A row of [csv.DictReader]: header name to cell.  A cell that
    [DictReader] leaves as [None] (short row) is a missing key here; every
    read of a row in [build_label_index] treats the two alike. *)
Abbreviation row := (gmap string string).

(** An insertion-ordered [dict] with [str] keys: keys are distinct, a new
    key goes last, an assignment to an old key keeps its place. *)
Abbreviation odict V := (list (string * V)).

Fixpoint od_get {V} (d : odict V) (k : string) : option V :=
  match d with
  | [] => None
  | (k', v) :: d' => if String.eqb k k' then Some v else od_get d' k
  end.

Fixpoint od_set {V} (d : odict V) (k : string) (v : V) : odict V :=
  match d with
  | [] => [(k, v)]
  | (k', v') :: d' =>
    if String.eqb k k' then (k, v) :: d' else (k', v') :: od_set d' k v
  end.

(** [d.setdefault(k, set()).add(x)]. *)
Definition od_add (d : odict (gset string)) (k x : string) : odict (gset string) :=
  od_set d k ({[x]} ∪ default ∅ (od_get d k)).

Definition ROUTE_TYPE_TO_PRODUCT : gmap string string :=
  list_to_map
    [("0", "TRAM"); ("1", "UBAHN"); ("2", "SBAHN"); ("3", "BUS"); ("900", "TRAM")].

(** The four tables read from the archive. *)
Record feed : Type := {
  routes : list row;
  trips : list row;
  stop_times : list row;
  stops : list row
}.

(** [GtfsIndex.mapping]: product to label to station ids. *)
Abbreviation mapping_t := (odict (odict (list string))).

(** The places where [build_label_index] enumerates a [set].  Each is
    reached once for a given route id, so the pair of place and route id
    names one enumeration of a run. *)
Inductive site : Type :=
  | ETrips | EStops | EKeys | ESortProduct | ESortAll.

(** [not v] is false: a [str] other than the empty one. *)
Definition nonempty (v : option string) : option string :=
  match v with
  | Some EmptyString | None => None
  | Some s => Some s
  end.

(** [products = {p.upper() for p in products} if products else None]. *)
Definition norm_products (products : option (gset string)) : option (gset string) :=
  match products with
  | None => None
  | Some ps => if bool_decide (ps = ∅) then None else Some (set_map upper ps)
  end.

(** [labels = {str(l).strip().upper() for l in labels} if labels else None]. *)
Definition norm_labels (labels : option (gset string)) : option (gset string) :=
  match labels with
  | None => None
  | Some ls =>
    if bool_decide (ls = ∅) then None else Some (set_map (fun l => upper (strip l)) ls)
  end.

(** [ROUTE_TYPE_TO_PRODUCT.get(r.get("route_type", ""))]. *)
Definition route_type_product (r : row) : option string :=
  ROUTE_TYPE_TO_PRODUCT !! default EmptyString (r !! "route_type").

(** [(r.get("route_short_name") or "").strip().upper()]. *)
Definition route_label (r : row) : string :=
  upper (strip (default EmptyString (r !! "route_short_name"))).

(** [products and (r_type not in products)]. *)
Definition product_excluded (products : option (gset string)) (r_type : option string) : bool :=
  match products with
  | None => false
  | Some ps =>
    negb (bool_decide (ps = ∅))
    && match r_type with
       | None => true
       | Some p => negb (bool_decide (p ∈ ps))
       end
  end.

(** [labels and (r_label not in labels)]. *)
Definition label_excluded (labels : option (gset string)) (r_label : string) : bool :=
  match labels with
  | None => false
  | Some ls => negb (bool_decide (ls = ∅)) && negb (bool_decide (r_label ∈ ls))
  end.

(** One round of the loop over [routes]; the state is
    [(route_ids, route_product)]. *)
Definition route_step (products labels : option (gset string))
    (acc : gset string * gmap string string) (r : row)
    : gset string * gmap string string :=
  let r_type := route_type_product r in
  let r_label := route_label r in
  if product_excluded products r_type then acc
  else if label_excluded labels r_label then acc
  else
    match nonempty (r !! "route_id") with
    | None => acc
    | Some rid =>
      ({[rid]} ∪ fst acc,
       match nonempty r_type with
       | Some p => <[rid := p]> (snd acc)
       | None => snd acc
       end)
    end.

Definition select_routes (products labels : option (gset string)) (rs : list row)
    : gset string * gmap string string :=
  fold_left (route_step products labels) rs (∅, ∅).

(** One round of the loop over [trips]; the state is [route_trips]. *)
Definition trip_step (route_ids : gset string)
    (route_trips : odict (gset string)) (t : row) : odict (gset string) :=
  match t !! "route_id" with
  | None => route_trips
  | Some rid =>
    if bool_decide (rid ∈ route_ids) then
      match nonempty (t !! "trip_id") with
      | None => route_trips
      | Some trip_id => od_add route_trips rid trip_id
      end
    else route_trips
  end.

(** One round of the loop over [stop_times]; the state is [trip_stops]. *)
Definition stop_time_step (trip_stops : gmap string (gset string)) (st : row)
    : gmap string (gset string) :=
  match nonempty (st !! "trip_id"), nonempty (st !! "stop_id") with
  | Some trip_id, Some stop_id =>
    <[trip_id := {[stop_id]} ∪ default ∅ (trip_stops !! trip_id)]> trip_stops
  | _, _ => trip_stops
  end.

(** [base3]. *)
Definition base3 (x : string) : string :=
  let parts := split ":" x in
  if (3 <=? length parts)%nat then join ":" (take 3 parts) else x.

(** The loop over the cached stations; the state is [station_base3_map]. *)
Definition station_step (m : gmap string (gset string)) (s : Ingest.Station)
    : gmap string (gset string) :=
  let key := base3 (Ingest.id s) in
  <[key := {[Ingest.id s]} ∪ default ∅ (m !! key)]> m.

(** [{s.get("stop_id"): s for s in stops if s.get("stop_id")}]. *)
Definition stop_lookup_step (m : gmap string row) (s : row) : gmap string row :=
  match nonempty (s !! "stop_id") with
  | None => m
  | Some sid => <[sid := s]> m
  end.

(** [next((x for x in routes if x.get("route_id") == rid), None)]. *)
Definition find_route (rs : list row) (rid : string) : option row :=
  List.find (fun x => bool_decide (x !! "route_id" = Some rid)) rs.

Section Build.

(** The order in which a [set] is enumerated at a given place for a given
    route id. *)
Variable enum : site -> string -> gset string -> list string.

(** The loop over [route_trips.items()]; the state is [route_stops]. *)
Definition route_stops_step (trip_stops : gmap string (gset string))
    (route_stops : odict (gset string)) (item : string * gset string)
    : odict (gset string) :=
  let '(rid, tids) := item in
  let all_stops :=
    fold_left (fun acc tid => acc ∪ default ∅ (trip_stops !! tid))
              (enum ETrips rid tids) ∅ in
  od_set route_stops rid all_stops.

(** One round of the loop [for sid in sids]; the state is [base3_keys]. *)
Definition base3_step (stop_lookup : gmap string row) (keys : gset string) (sid : string)
    : gset string :=
  match stop_lookup !! sid with
  | None => keys
  | Some sinfo =>
    if bool_decide (sinfo = ∅) then keys
    else
      let parent := strip (default EmptyString (nonempty (sinfo !! "parent_station"))) in
      let use_id := if String.eqb parent EmptyString then sid else parent in
      {[base3 use_id]} ∪ keys
  end.

(** [curr = set(mapping.setdefault(bucket, {}).get(label, []))] followed
    by [mapping[bucket][label] = sorted(curr | set(selected_ids))]. *)
Definition store (where_ : site) (rid : string) (mapping : mapping_t)
    (bucket label : string) (selected_ids : gset string) : mapping_t :=
  let inner := default [] (od_get mapping bucket) in
  let curr : gset string := list_to_set (default [] (od_get inner label)) in
  od_set mapping bucket
    (od_set inner label (sorted (enum where_ rid (curr ∪ selected_ids)))).

(** One round of the loop over [route_stops.items()]; the state is
    [mapping]. *)
Definition index_step (rs : list row) (route_product : gmap string string)
    (stop_lookup : gmap string row) (station_base3_map : gmap string (gset string))
    (mapping : mapping_t) (item : string * gset string) : mapping_t :=
  let '(rid, sids) := item in
  let prod := route_product !! rid in
  match find_route rs rid with
  | None => mapping
  | Some r =>
    let label := route_label r in
    match nonempty (Some label), nonempty prod with
    | Some label, Some prod =>
      let base3_keys := fold_left (base3_step stop_lookup) (enum EStops rid sids) ∅ in
      let selected_ids :=
        fold_left (fun acc k => acc ∪ default ∅ (station_base3_map !! k))
                  (enum EKeys rid base3_keys) ∅ in
      let mapping := store ESortProduct rid mapping prod label selected_ids in
      store ESortAll rid mapping "ALL" label selected_ids
    | _, _ => mapping
    end
  end.

(** [build_label_index], from the parsed tables and the cached stations to
    [GtfsIndex.mapping]. *)
Definition build_label_index (f : feed) (products labels : option (gset string))
    (stations : list Ingest.Station) : mapping_t :=
  let products := norm_products products in
  let labels := norm_labels labels in
  let '(route_ids, route_product) := select_routes products labels (routes f) in
  let route_trips := fold_left (trip_step route_ids) (trips f) [] in
  let trip_stops := fold_left stop_time_step (stop_times f) ∅ in
  let route_stops := fold_left (route_stops_step trip_stops) route_trips [] in
  let station_base3_map := fold_left station_step stations ∅ in
  let stop_lookup := fold_left stop_lookup_step (stops f) ∅ in
  fold_left (index_step (routes f) route_product stop_lookup station_base3_map)
            route_stops [].

End Build.

(** An enumeration order lists the members of the set, each once. *)
Definition enumerates (enum : site -> string -> gset string -> list string) : Prop :=
  forall w rid s, enum w rid s ≡ₚ elements s.

(** Two enumeration orders. *)
Definition in_order (w : site) (rid : string) (s : gset string) : list string :=
  elements s.

Definition in_reverse (w : site) (rid : string) (s : gset string) : list string :=
  reverse (elements s).

(** The route's [route_type] has an entry in [ROUTE_TYPE_TO_PRODUCT]. *)
Definition mapped (r : row) : bool :=
  match route_type_product r with
  | Some _ => true
  | None => false
  end.

(** The feed without the routes whose type is unmapped. *)
Definition drop_unmapped (f : feed) : feed :=
  {| routes := List.filter mapped (routes f);
     trips := trips f;
     stop_times := stop_times f;
     stops := stops f |}.

(** No route id is shared by a route of a mapped type and a route of an
    unmapped type. *)
Definition ids_consistent (rs : list row) : Prop :=
  forall r r' rid,
    In r rs -> In r' rs ->
    r !! "route_id" = Some rid -> r' !! "route_id" = Some rid ->
    mapped r = true -> mapped r' = true.

(** The entries of an ordered dictionary whose key passes [keep]. *)
Definition restrict {V} (keep : string -> bool) (d : odict V) : odict V :=
  List.filter (fun kv => keep kv.1) d.

(** Two states of the loop over [routes], one for all the routes and one
    for those of mapped type: they agree on [route_product], and the
    route ids of the second are among those of the first and cover the
    keys of [route_product]. *)
Definition selections_agree (acc acc' : gset string * gmap string string) : Prop :=
  acc.2 = acc'.2 /\ acc'.1 ⊆ acc.1 /\ dom acc'.2 ⊆ acc'.1.

(** Every list of the mapping is ascending and without a repetition. *)
Definition lists_ascending (m : mapping_t) : Prop :=
  forall product inner label ids,
    od_get m product = Some inner -> od_get inner label = Some ids ->
    Sorted String.le ids /\ NoDup ids.

(** [mapping.get(bucket, {}).get(label, [])]. *)
Definition index_ids (m : mapping_t) (bucket label : string) : list string :=
  default [] (od_get (default [] (od_get m bucket)) label).

(** [d.get(k, set())] on an ordered dictionary of sets. *)
Definition od_members (d : odict (gset string)) (k : string) : gset string :=
  default ∅ (od_get d k).

(** The key under which a stop is looked for among the cached stations:
    [base3] of its parent station if it declares one, else of its own id. *)
Definition stop_key (sinfo : row) (sid : string) : string :=
  let parent := strip (default EmptyString (nonempty (sinfo !! "parent_station"))) in
  base3 (if String.eqb parent EmptyString then sid else parent).

(** The route passes the product and label filters. *)
Definition passes (products labels : option (gset string)) (r : row) : bool :=
  negb (product_excluded products (route_type_product r))
  && negb (label_excluded labels (route_label r)).

(** Some trip of the route [rid] stops at [sid]. *)
Definition visits (f : feed) (rid sid : string) : Prop :=
  exists t tid st,
    In t (trips f) /\ t !! "route_id" = Some rid
    /\ nonempty (t !! "trip_id") = Some tid
    /\ In st (stop_times f) /\ nonempty (st !! "trip_id") = Some tid
    /\ nonempty (st !! "stop_id") = Some sid.

(** The cached station [x] has the key of a stop that the route visits. *)
Definition reaches (f : feed) (stations : list Ingest.Station) (rid x : string) : Prop :=
  exists sid sinfo s,
    visits f rid sid
    /\ fold_left stop_lookup_step (stops f) ∅ !! sid = Some sinfo
    /\ In s stations /\ Ingest.id s = x /\ base3 x = stop_key sinfo sid.

(** The route is selected under the id [rid] with the product [p]. *)
Definition selects (products labels : option (gset string)) (r : row)
    (rid p : string) : Prop :=
  passes products labels r = true
  /\ nonempty (r !! "route_id") = Some rid
  /\ route_type_product r = Some p.

(** The product that [route_product] ends with for the id [rid]: that of
    the last row selected under this id. *)
Definition selected_product (products labels : option (gset string))
    (rs : list row) (rid : string) : option string :=
  last (omap (fun r =>
                if passes products labels r
                   && bool_decide (nonempty (r !! "route_id") = Some rid)
                then route_type_product r else None) rs).

(** No two rows of [routes.txt] carry the same route id. *)
Definition distinct_route_ids (rs : list row) : Prop :=
  forall r r' rid,
    In r rs -> In r' rs ->
    r !! "route_id" = Some rid -> r' !! "route_id" = Some rid -> r = r'.

Section WithEnum.
Variable enum : site -> string -> gset string -> list string.

(** [all_stops] of the loop over [route_trips.items()]. *)
Definition all_stops (trip_stops : gmap string (gset string)) (rid : string)
    (tids : gset string) : gset string :=
  fold_left (fun acc tid => acc ∪ default ∅ (trip_stops !! tid))
            (enum ETrips rid tids) ∅.

(** [selected_ids] of the loop over [route_stops.items()]. *)
Definition selected_ids (stop_lookup : gmap string row)
    (station_base3_map : gmap string (gset string)) (rid : string)
    (sids : gset string) : gset string :=
  fold_left (fun acc k => acc ∪ default ∅ (station_base3_map !! k))
            (enum EKeys rid (fold_left (base3_step stop_lookup) (enum EStops rid sids) ∅))
            ∅.

(** What one round of the loop over [route_stops.items()] adds to the
    list of [bucket] and [label]. *)
Definition contribution (rs : list row) (route_product : gmap string string)
    (stop_lookup : gmap string row) (station_base3_map : gmap string (gset string))
    (bucket label : string) (item : string * gset string) : gset string :=
  match find_route rs item.1 with
  | None => ∅
  | Some r =>
    match nonempty (Some (route_label r)), nonempty (route_product !! item.1) with
    | Some l, Some prod =>
      if bool_decide (l = label /\ (bucket = prod \/ bucket = "ALL"))
      then selected_ids stop_lookup station_base3_map item.1 item.2
      else ∅
    | _, _ => ∅
    end
  end.
End WithEnum.

End GtfsIndex.

(** ** print_label_stations.py *)

Module PrintLabelStations.
Import Py GtfsIndex.

(** The places where [resolve_stations_for_labels] enumerates a [set]. *)
Inductive resolve_site : Type :=
  | RProducts | RLabels | ROut.

Section Resolve.

(** The order in which a [set] is enumerated at a given place. *)
Variable enum : resolve_site -> gset string -> list string.

(** The set [out] of [resolve_stations_for_labels] after its loops, from
    the mapping of the loaded index. *)
Definition collect (index : mapping_t) (products labels : list string)
    : gset string :=
  let prods : gset string := list_to_set (map (fun p => upper (strip p)) products) in
  let labs : gset string := list_to_set (map (fun l => upper (strip l)) labels) in
  let update (prod_map : odict (list string)) (out : gset string) (l : string)
      : gset string :=
    out ∪ list_to_set (default [] (od_get prod_map l)) in
  let out :=
    fold_left
      (fun out p =>
         let prod_map := default [] (od_get index p) in
         fold_left (update prod_map) (enum RLabels labs) out)
      (enum RProducts prods) ∅ in
  let all_map := default [] (od_get index "ALL") in
  fold_left (update all_map) (enum RLabels labs) out.

(** [resolve_stations_for_labels]: [sorted(out)]. *)
Definition resolve_stations_for_labels (index : mapping_t)
    (products labels : list string) : list string :=
  sorted (enum ROut (collect index products labels)).

End Resolve.

(** An enumeration order lists the members of the set, each once. *)
Definition resolve_enumerates (enum : resolve_site -> gset string -> list string) : Prop :=
  forall w s, enum w s ≡ₚ elements s.

Definition resolve_in_order (w : resolve_site) (s : gset string) : list string := elements s.

End PrintLabelStations.

(** ** cli.py: the command [ingest] *)

Module Cli.
Import Py Departures GtfsIndex Ingest.

(** The places where [ingest] enumerates a [set]. *)
Inductive cli_site : Type :=
  | CProducts | CLabels.

(** [{p.strip().upper() for p in products.split(",") if p.strip()}]. *)
Definition product_set_of (products : string) : gset string :=
  list_to_set
    (map (fun p => upper (strip p))
         (List.filter (fun p => negb (String.eqb (strip p) EmptyString))
                      (split "," products))).

(** [{s.strip() for s in text.split(",")} if text else None], the form of
    [label_set], of the station names and of the station ids. *)
Definition stripped_set_of (text : option string) : option (gset string) :=
  match text with
  | None | Some EmptyString => None
  | Some s => Some (list_to_set (map strip (split "," s)))
  end.

Section ResolveIds.

(** The order in which a [set] is enumerated at a given place. *)
Variable enum : cli_site -> gset string -> list string.

(** [resolved_station_ids], from the mapping of the loaded index. *)
Definition resolved_station_ids (use_label_index : bool) (index : mapping_t)
    (product_set : gset string) (label_set : option (gset string))
    (station_ids : option string) : option (gset string) :=
  let with_index :=
    match label_set with
    | Some ls => use_label_index && negb (bool_decide (ls = ∅))
    | None => false
    end in
  if with_index then
    let ls := default ∅ label_set in
    let prods : gset string :=
      if bool_decide (product_set = ∅) then {["ALL"]} else product_set in
    let resolved :=
      fold_left
        (fun acc prod =>
           let prod_map := default [] (od_get index prod) in
           fold_left
             (fun acc lab => acc ∪ list_to_set (default [] (od_get prod_map (upper lab))))
             (enum CLabels ls) acc)
        (enum CProducts prods) ∅ in
    match stripped_set_of station_ids with
    | Some ids => Some (resolved ∪ ids)
    | None => Some resolved
    end
  else stripped_set_of station_ids.

(** The command [ingest] on a database and a cache: what its call of
    [ingest_departures_for_products] returns and leaves. *)
Definition ingest (db : database) (cache : list Station)
    (products : string) (labels station_names station_ids : option string)
    (use_label_index : bool) (index : mapping_t)
    (fetch : string -> option (list Departure))
    (completion : list (option (string * list Departure))
                  -> list (option (string * list Departure)))
    : option (database * (Z * Z * Z)) :=
  let product_set := product_set_of products in
  let label_set := stripped_set_of labels in
  let resolved := resolved_station_ids use_label_index index product_set label_set
                    station_ids in
  ingest_departures_for_products db cache (Some product_set) label_set
    (stripped_set_of station_names) resolved fetch completion.

End ResolveIds.

(** An enumeration order lists the members of the set, each once. *)
Definition cli_enumerates (enum : cli_site -> gset string -> list string) : Prop :=
  forall w s, enum w s ≡ₚ elements s.

Definition cli_in_order (w : cli_site) (s : gset string) : list string := elements s.

End Cli.

(** ** Concrete inputs used by the examples *)

Module Examples.
Import Py Departures Ingest.
Local Open Scope Z_scope.
Local Open Scope string_scope.

(** No string is read in the examples. *)
Definition no_str (_ : string) : option pyfloat := None.

(** The payload of [test_fetch_departures_computes_delay]. *)
Definition item_no_delay : gmap string json :=
  {[ "planned_departure_time" := JInt 1700000000;
     "realtime_departure_time" := JInt 1700000300;
     "delay_in_minutes" := JNull ]}.

(** A delay of 0 under either spelling of the key. *)
Definition item_zero_snake : gmap string json :=
  {[ "planned_departure_time" := JInt 1700000000;
     "delay_in_minutes" := JInt 0 ]}.

Definition item_zero_camel : gmap string json :=
  {[ "plannedDepartureTime" := JInt 1700000000;
     "realtimeDepartureTime" := JInt 1700000300;
     "delayInMinutes" := JInt 0 ]}.

(** The stations of [test_filter_stations_by_products]. *)
Definition station (i n : string) (p : option (list string)) : Station :=
  {| id := i; name := n; place := None; latitude := None; longitude := None;
     diva_id := None; tariff_zones := None; products := p |}.

Definition s1 := station "s1" "Alpha" (Some ["TRAM"]).
Definition s2 := station "s2" "Beta" (Some ["BUS"; "TRAM"]).
Definition s3 := station "s3" "Gamma" (Some ["UBAHN"]).
Definition s4 := station "s4" "Delta" None.
Definition four_stations : list Station := [s1; s2; s3; s4].

(** The departures of [test_insert_departures_dedup], which differ in
    [fetched_at] only, and a departure of another line. *)
Definition departure (lab : string) (fetched : Z) : Departure :=
  {| station_id := "s1";
     planned_departure_time := Some 1700000000;
     realtime_departure_time := Some 1700000300;
     delay_in_minutes := Some 5;
     transport_type := Some "TRAM";
     label := Some lab;
     destination := Some "Central";
     cancelled := false;
     platform := None;
     realtime := true;
     fetched_at := fetched |}.

(** A departure whose planned time is unknown. *)
Definition no_planned_time (fetched : Z) : Departure :=
  {| station_id := "s1";
     planned_departure_time := None;
     realtime_departure_time := Some 1700000300;
     delay_in_minutes := None;
     transport_type := Some "TRAM";
     label := Some "T17";
     destination := Some "Central";
     cancelled := false;
     platform := None;
     realtime := true;
     fetched_at := fetched |}.

Definition t17_first := departure "T17" 1700000000.
Definition t17_again := departure "T17" 1700000060.
Definition t18 := departure "T18" 1700000060.

(** Rounds of the poller: a pass of 2 time units that raises, and one
    that returns. *)
Definition failing_pass : Poller.round_env :=
  {| Poller.pass_duration := 2; Poller.pass_ok := false;
     Poller.stop_before_check := false; Poller.stop_during_sleep := false |}.

Definition passing_pass : Poller.round_env :=
  {| Poller.pass_duration := 2; Poller.pass_ok := true;
     Poller.stop_before_check := false; Poller.stop_during_sleep := false |}.

(** Two feeds over the same trips, stops and cached stations.  In the
    first, the route ids are distinct and route [Q] has an unmapped
    type.  In the second, the id [R] is carried by a route of unmapped
    type 7 with short name [x] and by a tram route with short name [y]. *)
Definition route (i t n : string) : GtfsIndex.row :=
  {[ "route_id" := i; "route_type" := t; "route_short_name" := n ]}.

Definition trip (i t : string) : GtfsIndex.row :=
  {[ "route_id" := i; "trip_id" := t ]}.

Definition stop_time (t sid : string) : GtfsIndex.row :=
  {[ "trip_id" := t; "stop_id" := sid ]}.

Definition stop (sid parent : string) : GtfsIndex.row :=
  {[ "stop_id" := sid; "parent_station" := parent ]}.

Definition feed_of (rs : list GtfsIndex.row) : GtfsIndex.feed :=
  {| GtfsIndex.routes := rs;
     GtfsIndex.trips := [trip "R" "T1"; trip "Q" "T2"; trip "B" "T3"];
     GtfsIndex.stop_times :=
       [stop_time "T1" "de:1:2:0:1"; stop_time "T2" "de:1:3:0:1";
        stop_time "T3" "de:1:3:0:1"; stop_time "T3" "de:1:2:0:1"];
     GtfsIndex.stops := [stop "de:1:2:0:1" ""; stop "de:1:3:0:1" "de:1:3"] |}.

Definition feed_distinct_ids : GtfsIndex.feed :=
  feed_of [route "R" "0" "19"; route "Q" "7" "n1"; route "B" "3" "19"].

Definition unmapped_x : GtfsIndex.row := route "R" "7" "x".

Definition feed_shared_id : GtfsIndex.feed :=
  feed_of [unmapped_x; route "R" "0" "y"].

Definition cached_stations : list Station :=
  [station "de:1:2" "Two" None; station "de:1:3" "Three" None;
   station "de:1:2:5" "Two, platform 5" None].

(** A pass over a cache of two stations on an empty database: the tram
    station is selected and its fetch returns two departures. *)
Definition pass_db : database := {| stations_table := ∅; departures_raw := [] |}.

Definition pass_fetch (station_id : string) : option (list Departure) :=
  if String.eqb station_id "s1" then Some [t17_first; t18] else None.

Definition pass_db_after : database :=
  {| stations_table :=
       <["s3" := assign blank_orm s3]> (<["s1" := assign blank_orm s1]> ∅);
     departures_raw := [t17_first; t18] |}.

(** A pass during which a signal arrives. *)
Definition interrupted_pass : Poller.round_env :=
  {| Poller.pass_duration := 2; Poller.pass_ok := true;
     Poller.stop_before_check := true; Poller.stop_during_sleep := false |}.

End Examples.

(** * Properties *)

(** A decidable closed proposition, settled by evaluation. *)
Ltac decide_by_compute := apply (bool_decide_unpack _); vm_compute; exact I.

(** ** Arithmetic of the Python primitives *)

Section PyArith.
Import Py.
Local Open Scope Z_scope.

Lemma round_half_even_div_exact q d : 0 < d -> round_half_even_div (q * d) d = q.
Proof.
  intros Hd. unfold round_half_even_div.
  rewrite Z.mod_mul, Z.div_mul by lia.
  replace (2 * 0 <? d) with true by (symmetry; apply Z.ltb_lt; lia).
  reflexivity.
Qed.

Lemma ge_scaled_log2 n : 0 < n -> ge_scaled n 1 (Z.log2 n - Z.log2 1) = true.
Proof.
  intros Hn. unfold ge_scaled. change (Z.log2 1) with 0. rewrite Z.sub_0_r.
  pose proof (Z.log2_nonneg n) as Hl.
  replace (0 <=? Z.log2 n) with true by (symmetry; apply Z.leb_le; lia).
  apply Z.leb_le. destruct (Z.log2_spec n Hn) as [Hlo _]. lia.
Qed.

(** [float] is exact on the integers of magnitude at most [2^53], and
    [int] brings them back. *)
Lemma int_of_float_of_int z :
  - 2 ^ 53 <= z <= 2 ^ 53 -> float_of_int z ≫= int_of_float = Some z.
Proof.
  intros Hz. unfold float_of_int, round_ratio.
  destruct (Z.eqb_spec z 0) as [->|Hz0]; [reflexivity|].
  assert (Hn : 0 < Z.abs z <= 2 ^ 53) by lia.
  set (n := Z.abs z) in *.
  rewrite ge_scaled_log2 by lia.
  change (Z.log2 1) with 0. rewrite Z.sub_0_r.
  pose proof (Z.log2_nonneg n) as Hl0.
  assert (Hl : Z.log2 n <= 53).
  { change 53 with (Z.log2 (2 ^ 53)). apply Z.log2_le_mono. lia. }
  destruct (Z.log2_spec n (proj1 Hn)) as [Hlo Hhi].
  set (l := Z.log2 n) in *.
  rewrite Z.max_l by lia.
  assert (Hsgn : Z.sgn z * n = z) by (subst n; lia).
  destruct (Z.leb_spec 0 (l - 52)) as [He|He].
  - (* l = 52 or l = 53: the exponent is 0 or 1 *)
    assert (Hd : 0 < 1 * 2 ^ (l - 52)) by (apply Z.mul_pos_pos; [lia|apply Z.pow_pos_nonneg; lia]).
    assert (Hdiv : n = n / (1 * 2 ^ (l - 52)) * (1 * 2 ^ (l - 52))).
    { assert (l = 52 \/ l = 53) as [->| ->] by lia.
      - change (1 * 2 ^ (52 - 52)) with 1. rewrite Z.div_1_r. lia.
      - assert (n = 2 ^ 53) as -> by lia. reflexivity. }
    set (d := 1 * 2 ^ (l - 52)) in *.
    set (q := n / d) in *.
    rewrite Hdiv, round_half_even_div_exact by lia.
    assert (Hq : q < 2 ^ 53).
    { assert (l = 52 \/ l = 53) as [El|El] by lia; subst d; rewrite El in *.
      - change (1 * 2 ^ (52 - 52)) with 1 in *. lia.
      - change (1 * 2 ^ (53 - 52)) with 2 in *. lia. }
    replace (971 <? l - 52) with false by (symmetry; apply Z.ltb_ge; lia).
    replace (l - 52 =? 971) with false by (symmetry; apply Z.eqb_neq; lia).
    simpl. replace (0 <=? l - 52) with true by (symmetry; apply Z.leb_le; lia).
    f_equal. subst d. lia.
  - (* l < 52: the mantissa is scaled up to 53 bits *)
    replace (n * 2 ^ (- (l - 52))) with ((n * 2 ^ (- (l - 52))) * 1) by lia.
    rewrite round_half_even_div_exact by lia.
    replace (971 <? l - 52) with false by (symmetry; apply Z.ltb_ge; lia).
    replace (l - 52 =? 971) with false by (symmetry; apply Z.eqb_neq; lia).
    simpl. replace (0 <=? l - 52) with false by (symmetry; apply Z.leb_gt; lia).
    f_equal.
    assert (Hp : 0 < 2 ^ (- (l - 52))) by (apply Z.pow_pos_nonneg; lia).
    rewrite Z.mul_assoc, Hsgn. apply Z.quot_mul. lia.
Qed.

(** [round_half_even_div n d] is the integer nearest to [n / d], the even
    one of the two when [n / d] is half way between them. *)
Lemma round_half_even_div_char n d N :
  0 < d ->
  (2 * Z.abs (n - d * N) < d \/ (2 * Z.abs (n - d * N) = d /\ Z.even N = true)) ->
  round_half_even_div n d = N.
Proof.
  intros Hd HN. unfold round_half_even_div.
  pose proof (Z.div_mod n d ltac:(lia)) as Hn.
  pose proof (Z.mod_pos_bound n d Hd) as Hr.
  set (q := n / d) in *. set (r := n mod d) in *.
  assert (HNq : N = q \/ N = q + 1) by nia.
  destruct (Z.ltb_spec (2 * r) d) as [H1|H1].
  - destruct HNq as [->| ->]; [reflexivity|]. exfalso.
    destruct HN as [HN|[HN _]]; nia.
  - destruct (Z.ltb_spec d (2 * r)) as [H2|H2].
    + destruct HNq as [->| ->]; [|reflexivity]. exfalso.
      destruct HN as [HN|[HN _]]; nia.
    + assert (Htie : 2 * r = d) by lia.
      destruct HN as [HN|[_ HN]]; [exfalso; destruct HNq as [->| ->]; nia|].
      destruct HNq as [->| ->].
      * by rewrite HN.
      * replace (Z.even q) with false; [reflexivity|].
        rewrite Z.even_add in HN. simpl in HN.
        destruct (Z.even q); [discriminate|reflexivity].
Qed.

Lemma round_half_even_div_near n d :
  0 < d ->
  2 * Z.abs (n - d * round_half_even_div n d) < d
  \/ (2 * Z.abs (n - d * round_half_even_div n d) = d
      /\ Z.even (round_half_even_div n d) = true).
Proof.
  intros Hd. unfold round_half_even_div.
  pose proof (Z.div_mod n d ltac:(lia)) as Hn.
  pose proof (Z.mod_pos_bound n d Hd) as Hr.
  set (q := n / d) in *. set (r := n mod d) in *.
  destruct (Z.ltb_spec (2 * r) d) as [H1|H1]; [left; nia|].
  destruct (Z.ltb_spec d (2 * r)) as [H2|H2]; [left; nia|].
  right. destruct (Z.even q) eqn:Hq.
  - split; [nia|done].
  - split; [nia|]. rewrite Z.even_add, Hq. reflexivity.
Qed.

(** The binary exponent that [round_ratio] finds for [n / 60]. *)
Lemma quotient_exponent n :
  0 < n <= 2 ^ 53 ->
  -6 <= (if ge_scaled n 60 (Z.log2 n - Z.log2 60)
         then Z.log2 n - Z.log2 60 else Z.log2 n - Z.log2 60 - 1) <= 47.
Proof.
  intros Hn. change (Z.log2 60) with 5.
  pose proof (Z.log2_nonneg n) as Hl0.
  assert (Hl : Z.log2 n <= 53).
  { change 53 with (Z.log2 (2 ^ 53)). apply Z.log2_le_mono. lia. }
  destruct (ge_scaled n 60 (Z.log2 n - 5)) eqn:G; [|lia].
  split; [lia|].
  destruct (Z.eq_dec (Z.log2 n) 53) as [E|E]; [|lia].
  exfalso. rewrite E in G. unfold ge_scaled in G. simpl in G.
  apply Z.leb_le in G. lia.
Qed.

(** Within [2^53] seconds, dividing by 60 in floating point and rounding
    gives the integer nearest to the exact quotient, ties to even. *)
Lemma round_of_quotient a :
  - 2 ^ 53 <= a <= 2 ^ 53 ->
  truediv a 60 ≫= py_round = Some (round_half_even_div a 60).
Proof.
  intros Ha. unfold truediv, round_ratio.
  destruct (Z.eqb_spec a 0) as [->|Ha0]; [reflexivity|].
  assert (Hn : 0 < Z.abs a <= 2 ^ 53) by lia.
  pose proof (quotient_exponent (Z.abs a) Hn) as Hex.
  set (ex := if ge_scaled (Z.abs a) 60 (Z.log2 (Z.abs a) - Z.log2 60)
             then Z.log2 (Z.abs a) - Z.log2 60
             else Z.log2 (Z.abs a) - Z.log2 60 - 1) in *.
  rewrite Z.max_l by lia.
  replace (0 <=? ex - 52) with false by (symmetry; apply Z.leb_gt; lia).
  replace (971 <? ex - 52) with false by (symmetry; apply Z.ltb_ge; lia).
  replace (ex - 52 =? 971) with false by (symmetry; apply Z.eqb_neq; lia).
  simpl. replace (0 <=? ex - 52) with false by (symmetry; apply Z.leb_gt; lia).
  f_equal.
  assert (HK : 2 ^ (- (ex - 52)) = 2 * 2 ^ (- (ex - 52) - 1)).
  { rewrite <- Z.pow_succ_r by lia. f_equal. lia. }
  assert (HH : 16 <= 2 ^ (- (ex - 52) - 1)).
  { change 16 with (2 ^ 4). apply Z.pow_le_mono_r; lia. }
  set (K := 2 ^ (- (ex - 52))) in *. set (H := 2 ^ (- (ex - 52) - 1)) in *.
  pose proof (round_half_even_div_near (Z.abs a * K) 60 ltac:(lia)) as Hm.
  pose proof (round_half_even_div_near a 60 ltac:(lia)) as HN.
  set (m := round_half_even_div (Z.abs a * K) 60) in *.
  set (N := round_half_even_div a 60) in *.
  apply round_half_even_div_char; [lia|].
  assert (Hu : 2 * Z.abs (Z.abs a * K - 60 * m) <= 60) by (destruct Hm as [?|[? _]]; lia).
  clear Hm.
  assert (Hid : 60 * (Z.sgn a * m - K * N)
                = K * (a - 60 * N) - Z.sgn a * (Z.abs a * K - 60 * m)).
  { replace (Z.sgn a * (Z.abs a * K - 60 * m))
      with ((Z.sgn a * Z.abs a) * K - 60 * (Z.sgn a * m)) by ring.
    replace (Z.sgn a * Z.abs a) with a by lia. ring. }
  assert (Hsu : Z.abs (Z.sgn a * (Z.abs a * K - 60 * m)) <= 30).
  { rewrite Z.abs_mul. replace (Z.abs (Z.sgn a)) with 1 by lia. lia. }
  destruct HN as [HN|[HN Heven]].
  - left.
    assert (Z.abs (K * (a - 60 * N)) <= 29 * K).
    { rewrite Z.abs_mul. replace (Z.abs K) with K by lia. nia. }
    lia.
  - right. split; [|exact Heven].
    assert (Hzero : Z.abs a * K - 60 * m = 0).
    { assert (Hdiv : Z.abs a * K = 60 * (H * Z.abs (2 * N - (if a - 60 * N <? 0 then 1 else -1)))).
      { destruct (Z.ltb_spec (a - 60 * N) 0).
        - replace (Z.abs a) with (30 * Z.abs (2 * N - 1)) by lia. rewrite HK. ring.
        - replace (Z.abs a) with (30 * Z.abs (2 * N - -1)) by lia. rewrite HK. ring. }
      lia. }
    rewrite Hzero, Z.mul_0_r, Z.sub_0_r in Hid.
    assert (Z.abs (K * (a - 60 * N)) = 30 * K).
    { rewrite Z.abs_mul. replace (Z.abs K) with K by lia. lia. }
    lia.
Qed.
End PyArith.

(** ** departures.py: timestamps and delays *)

Section DeparturesProperties.
Import Py Departures.
Local Open Scope Z_scope.

Variable float_of_str : string -> option pyfloat.

Lemma normalize_int_exact z :
  - 2 ^ 53 <= z <= 2 ^ 53 ->
  _normalize_epoch_seconds float_of_str (JInt z)
  = Some (if 10000000000 <? z then z / 1000 else z).
Proof.
  intros Hz. unfold _normalize_epoch_seconds, float_of.
  rewrite (int_of_float_of_int z Hz). by destruct (10000000000 <? z).
Qed.

(** C5, as amended.  An [int] of magnitude at most [2^53] (the range in
    which [float] is exact) normalizes to itself when it is at most
    [10_000_000_000] and to its quotient by 1000, rounded down, when it is
    larger; [None] normalizes to [None], not to 0. *)
Theorem normalize_epoch_seconds_int (z : Z) :
  - 2 ^ 53 <= z <= 2 ^ 53 ->
  (10000000000 < z ->
     _normalize_epoch_seconds float_of_str (JInt z) = Some (z / 1000))
  /\ (z <= 10000000000 ->
     _normalize_epoch_seconds float_of_str (JInt z) = Some z)
  /\ _normalize_epoch_seconds float_of_str JNull = None
  /\ _normalize_epoch_seconds float_of_str JNull <> Some 0.
Proof.
  intros Hz. rewrite (normalize_int_exact z Hz). repeat split.
  - intros H. by replace (10000000000 <? z) with true by (symmetry; apply Z.ltb_lt; lia).
  - intros H. by replace (10000000000 <? z) with false by (symmetry; apply Z.ltb_ge; lia).
  - discriminate.
Qed.

Lemma item_delay_of_null item :
  py_or (get item "delay_in_minutes") (get item "delayInMinutes") = JNull ->
  item_delay float_of_str item
  = derived_delay (item_planned float_of_str item) (item_realtime float_of_str item).
Proof.
  intros H. unfold item_delay, derived_delay. rewrite H.
  destruct (item_planned float_of_str item), (item_realtime float_of_str item); reflexivity.
Qed.

Lemma item_delay_of_value item v :
  py_or (get item "delay_in_minutes") (get item "delayInMinutes") = v ->
  v <> JNull ->
  item_delay float_of_str item = Some v.
Proof.
  intros H Hv. unfold item_delay. rewrite H.
  destruct v; try congruence;
    destruct (item_planned float_of_str item), (item_realtime float_of_str item); reflexivity.
Qed.

(** C6.  When upstream supplies no delay (neither spelling of the key has
    a value), a record with both times gets
    [int(round((realtime - planned) / 60))], which is the integer nearest
    to the sixtieth of the difference, ties to even, for times at most
    [2^53] seconds apart, and 5 for a realtime 300 seconds after the
    planned time; a record that lacks one of the times gets no delay. *)
Theorem delay_derived_when_absent (item : gmap string json) :
  get item "delay_in_minutes" = JNull ->
  get item "delayInMinutes" = JNull ->
  (forall planned realtime,
     item_planned float_of_str item = Some planned ->
     item_realtime float_of_str item = Some realtime ->
     item_delay float_of_str item
     = (d ← truediv (realtime - planned) 60 ≫= py_round; Some (JInt d))
     /\ (- 2 ^ 53 <= realtime - planned <= 2 ^ 53 ->
         item_delay float_of_str item
         = Some (JInt (round_half_even_div (realtime - planned) 60)))
     /\ (realtime = planned + 300 -> item_delay float_of_str item = Some (JInt 5)))
  /\ (item_planned float_of_str item = None \/ item_realtime float_of_str item = None ->
      item_delay float_of_str item = Some JNull).
Proof.
  intros H1 H2.
  assert (H : py_or (get item "delay_in_minutes") (get item "delayInMinutes") = JNull)
    by (unfold py_or; rewrite H1, H2; reflexivity).
  rewrite (item_delay_of_null item H). split.
  - intros planned realtime -> ->. split; [reflexivity|]. unfold derived_delay. split.
    + intros Hd. by rewrite round_of_quotient.
    + intros ->. rewrite round_of_quotient by lia.
      by replace (planned + 300 - planned) with 300 by lia.
  - intros [-> | ->]; [reflexivity|].
    by destruct (item_planned float_of_str item).
Qed.

(** C9, as amended.  A delay of 0 under ["delay_in_minutes"] is dropped by
    the [or]: with no ["delayInMinutes"] beside it the record is treated
    as one without a delay, so the delay is derived from the two times
    when both are there and is absent, not 0, when one is missing.  A
    delay of 0 under ["delayInMinutes"], with nothing truthy under
    ["delay_in_minutes"], is what the [or] returns, and it is stored as 0
    whatever the times are. *)
Theorem explicit_zero_delay (item : gmap string json) :
  (get item "delay_in_minutes" = JInt 0 ->
   get item "delayInMinutes" = JNull ->
   item_delay float_of_str item
   = derived_delay (item_planned float_of_str item) (item_realtime float_of_str item))
  /\ (truthy (get item "delay_in_minutes") = false ->
      get item "delayInMinutes" = JInt 0 ->
      item_delay float_of_str item = Some (JInt 0)).
Proof.
  split.
  - intros H1 H2. apply item_delay_of_null. unfold py_or. by rewrite H1, H2.
  - intros H1 H2. apply item_delay_of_value; [|discriminate].
    unfold py_or. by rewrite H1, H2.
Qed.

End DeparturesProperties.

Section DeparturesExamples.
Import Py Departures Examples.
Local Open Scope Z_scope.

(** The two timestamps of [test_normalize_epoch_seconds]. *)
Lemma normalize_epoch_seconds_int_witness :
  (- 2 ^ 53 <= 1700000000000 <= 2 ^ 53)
  /\ _normalize_epoch_seconds no_str (JInt 1700000000000) = Some 1700000000
  /\ _normalize_epoch_seconds no_str (JInt 1700000000) = Some 1700000000.
Proof.
  split; [lia|]. split.
  - apply (normalize_epoch_seconds_int no_str 1700000000000); lia.
  - apply (normalize_epoch_seconds_int no_str 1700000000); lia.
Defined.

(** C5 as stated fails: above [2^53] the conversion through [float]
    rounds the integer before the division. *)
Lemma normalize_epoch_seconds_rounds_large_int :
  10000000000 < 9007199254740999
  /\ _normalize_epoch_seconds no_str (JInt 9007199254740999) = Some 9007199254741
  /\ _normalize_epoch_seconds no_str (JInt 9007199254740999)
     <> Some (9007199254740999 / 1000).
Proof. split; [lia|]. split; [reflexivity|discriminate]. Qed.

(** The payload of the test: five minutes late. *)
Lemma delay_derived_when_absent_witness :
  get item_no_delay "delay_in_minutes" = JNull
  /\ get item_no_delay "delayInMinutes" = JNull
  /\ item_planned no_str item_no_delay = Some 1700000000
  /\ item_realtime no_str item_no_delay = Some 1700000300
  /\ item_delay no_str item_no_delay = Some (JInt 5).
Proof.
  repeat (split; [reflexivity|]).
  apply (proj1 (delay_derived_when_absent no_str item_no_delay eq_refl eq_refl)
           1700000000 1700000300 eq_refl eq_refl).
  reflexivity.
Defined.

(** A delay of 0 under the first spelling, without a realtime, and under
    the second spelling, with both times. *)
Lemma explicit_zero_delay_witness :
  (get item_zero_snake "delay_in_minutes" = JInt 0
   /\ get item_zero_snake "delayInMinutes" = JNull
   /\ item_delay no_str item_zero_snake = Some JNull)
  /\ (truthy (get item_zero_camel "delay_in_minutes") = false
      /\ get item_zero_camel "delayInMinutes" = JInt 0
      /\ item_delay no_str item_zero_camel = Some (JInt 0)).
Proof.
  split; (split; [reflexivity|]); (split; [reflexivity|]).
  - apply (proj1 (explicit_zero_delay no_str item_zero_snake)); reflexivity.
  - apply (proj2 (explicit_zero_delay no_str item_zero_camel)); reflexivity.
Defined.

(** C9 as stated fails twice.  A record that reports a delay of 0 under
    ["delayInMinutes"] and has both times keeps the 0, though the times
    are five minutes apart; and a record that reports 0 under
    ["delay_in_minutes"] and lacks the realtime ends up with no delay,
    so the 0 does not survive there. *)
Lemma explicit_zero_not_always_rederived :
  (get item_zero_camel "delayInMinutes" = JInt 0
   /\ item_planned no_str item_zero_camel = Some 1700000000
   /\ item_realtime no_str item_zero_camel = Some 1700000300
   /\ derived_delay (Some 1700000000) (Some 1700000300) = Some (JInt 5)
   /\ item_delay no_str item_zero_camel = Some (JInt 0))
  /\ (get item_zero_snake "delay_in_minutes" = JInt 0
      /\ item_realtime no_str item_zero_snake = None
      /\ item_delay no_str item_zero_snake <> Some (JInt 0)).
Proof. repeat split; try reflexivity. discriminate. Qed.

End DeparturesExamples.

(** ** ingest.py: narrowing the stations by product *)

Section FilterProperties.
Import Py Departures Ingest.

Lemma shares_product_spec (ps : gset string) (declared : list string) :
  shares_product (set_map upper ps) declared
  = existsb (fun p => existsb (fun q => String.eqb (upper p) (upper q)) (elements ps))
            declared.
Proof.
  unfold shares_product.
  destruct (existsb _ declared) eqn:E.
  - apply bool_decide_eq_true.
    apply existsb_exists in E as (p & Hp & E).
    apply existsb_exists in E as (q & Hq & E).
    apply String.eqb_eq in E.
    apply list_elem_of_In in Hp. apply list_elem_of_In, elem_of_elements in Hq.
    intros Hempty.
    assert (upper p ∈ (list_to_set (upper <$> declared) : gset string) ∩ set_map upper ps)
      as Hin; [|rewrite Hempty in Hin; set_solver].
    apply elem_of_intersection. split.
    + apply elem_of_list_to_set, list_elem_of_fmap. eauto.
    + rewrite E. apply elem_of_map. eauto.
  - apply bool_decide_eq_false. intros Hne. apply Hne. clear Hne.
    apply set_eq. intros x. split; [|set_solver].
    intros [Hx1 Hx2]%elem_of_intersection. exfalso.
    apply elem_of_list_to_set, list_elem_of_fmap in Hx1 as (p & -> & Hp).
    apply elem_of_map in Hx2 as (q & Hpq & Hq).
    apply not_true_iff_false in E. apply E.
    apply existsb_exists. exists p. split; [by apply list_elem_of_In|].
    apply existsb_exists. exists q. split.
    + by apply list_elem_of_In, elem_of_elements.
    + by apply String.eqb_eq.
Qed.

(** The three ways through [filter_stations_by_products]. *)
Lemma filter_stations_bypass stations products :
  products = None \/ products = Some ∅
  \/ (exists ps, products = Some ps /\ "ALL" ∈ ps) ->
  filter_stations_by_products stations products = stations.
Proof.
  intros [-> | [-> | (ps & -> & Hall)]]; [reflexivity..|].
  unfold filter_stations_by_products.
  rewrite (bool_decide_eq_true_2 _ Hall). by rewrite orb_true_r.
Qed.

Lemma filter_stations_narrow stations (ps : gset string) :
  ps ≠ ∅ -> "ALL" ∉ ps ->
  filter_stations_by_products stations (Some ps)
  = List.filter (declares_requested ps) stations.
Proof.
  intros Hne Hall. unfold filter_stations_by_products.
  rewrite (bool_decide_eq_false_2 _ Hne), (bool_decide_eq_false_2 _ Hall). simpl.
  apply List.filter_ext. intros s. unfold declares_requested.
  destruct (products s) as [[|p declared]|]; [reflexivity| |reflexivity].
  apply shares_product_spec.
Qed.

(** C7, as amended.  For a requested set that is not empty: if it
    contains ["ALL"] every station is returned, those without declared
    products too; otherwise exactly the stations that declare one of the
    requested products, letter case aside, are kept, in their order. *)
Theorem filter_stations_by_products_spec (stations : list Station) (ps : gset string) :
  ps ≠ ∅ ->
  ("ALL" ∈ ps -> filter_stations_by_products stations (Some ps) = stations)
  /\ ("ALL" ∉ ps ->
      filter_stations_by_products stations (Some ps)
      = List.filter (declares_requested ps) stations).
Proof.
  intros Hne. split.
  - intros Hall. apply filter_stations_bypass. eauto.
  - intros Hall. by apply filter_stations_narrow.
Qed.

(** C10.  The whole list is returned without a look at the stations when
    the request is [None], empty, or has the string ["ALL"] itself as a
    member; in every other case, a request whose only way to spell it is
    ["all"] among them, the stations are narrowed by the comparison that
    ignores letter case, which drops a station without declared
    products. *)
Theorem all_bypass_is_case_sensitive (stations : list Station) (products : option (gset string)) :
  (products = None \/ products = Some ∅
   \/ (exists ps, products = Some ps /\ "ALL" ∈ ps) ->
   filter_stations_by_products stations products = stations)
  /\ (forall ps, products = Some ps -> ps ≠ ∅ -> "ALL" ∉ ps ->
      filter_stations_by_products stations products
      = List.filter (declares_requested ps) stations
      /\ forall s, Ingest.products s = None ->
           ~ In s (filter_stations_by_products stations products)).
Proof.
  split; [apply filter_stations_bypass|].
  intros ps -> Hne Hall. rewrite filter_stations_narrow by done.
  split; [reflexivity|].
  intros s Hs [_ Hin]%filter_In.
  unfold declares_requested in Hin. by rewrite Hs in Hin.
Qed.

End FilterProperties.

Section FilterExamples.
Import Py Departures Ingest Examples.

(** The four stations of the test, narrowed by TRAM and by ALL. *)
Lemma filter_stations_by_products_spec_witness :
  (({["TRAM"]} : gset string) ≠ ∅)
  /\ ("ALL" ∉ ({["TRAM"]} : gset string))
  /\ filter_stations_by_products four_stations (Some {["TRAM"]}) = [s1; s2]
  /\ (({["ALL"]} : gset string) ≠ ∅)
  /\ ("ALL" ∈ ({["ALL"]} : gset string))
  /\ filter_stations_by_products four_stations (Some {["ALL"]}) = [s1; s2; s3; s4].
Proof.
  assert (H1 : ({["TRAM"]} : gset string) ≠ ∅) by decide_by_compute.
  assert (H2 : "ALL" ∉ ({["TRAM"]} : gset string)) by decide_by_compute.
  assert (H3 : ({["ALL"]} : gset string) ≠ ∅) by decide_by_compute.
  assert (H4 : "ALL" ∈ ({["ALL"]} : gset string)) by decide_by_compute.
  repeat (split; [assumption|]).
  split; [|repeat (split; [assumption|])].
  - rewrite (proj2 (filter_stations_by_products_spec four_stations {["TRAM"]} H1) H2).
    vm_compute. reflexivity.
  - apply (proj1 (filter_stations_by_products_spec four_stations {["ALL"]} H3) H4).
Defined.

(** C7 as stated fails on the empty request: no declared product is one
    of no requested products, yet every station is returned. *)
Lemma filter_stations_empty_request_keeps_all :
  List.filter (declares_requested ∅) four_stations = []
  /\ filter_stations_by_products four_stations (Some ∅) = [s1; s2; s3; s4].
Proof. split; reflexivity. Qed.

(** The four stations of the test under the requests that return the
    whole list, and under ["all"] and ["tram"], which do not. *)
Lemma all_bypass_is_case_sensitive_witness :
  filter_stations_by_products four_stations (Some {["ALL"]}) = four_stations
  /\ filter_stations_by_products four_stations (Some ∅) = four_stations
  /\ filter_stations_by_products four_stations None = four_stations
  /\ (({["all"]} : gset string) ≠ ∅)
  /\ ("ALL" ∉ ({["all"]} : gset string))
  /\ filter_stations_by_products four_stations (Some {["all"]}) = []
  /\ filter_stations_by_products four_stations (Some {["tram"]}) = [s1; s2].
Proof.
  assert (H1 : ({["all"]} : gset string) ≠ ∅) by decide_by_compute.
  assert (H2 : "ALL" ∉ ({["all"]} : gset string)) by decide_by_compute.
  assert (H3 : ({["tram"]} : gset string) ≠ ∅) by decide_by_compute.
  assert (H4 : "ALL" ∉ ({["tram"]} : gset string)) by decide_by_compute.
  split; [|split; [|split]].
  - apply (proj1 (all_bypass_is_case_sensitive four_stations (Some {["ALL"]}))).
    right. right. exists {["ALL"]}. split; [reflexivity|].
    decide_by_compute.
  - apply (proj1 (all_bypass_is_case_sensitive four_stations (Some ∅))). auto.
  - apply (proj1 (all_bypass_is_case_sensitive four_stations None)). auto.
  - repeat (split; [assumption|]). split.
    + rewrite (proj1 (proj2 (all_bypass_is_case_sensitive four_stations (Some {["all"]}))
                       {["all"]} eq_refl H1 H2)).
      vm_compute. reflexivity.
    + rewrite (proj1 (proj2 (all_bypass_is_case_sensitive four_stations (Some {["tram"]}))
                       {["tram"]} eq_refl H3 H4)).
      vm_compute. reflexivity.
Defined.

End FilterExamples.

(** ** ingest.py: inserting a batch through one session *)

Section InsertProperties.
Import Py Departures Ingest.
Local Open Scope Z_scope.

Lemma same_notnull_sym {A} (eqb : A -> A -> bool) (x y : option A) :
  (forall a b, eqb a b = eqb b a) -> same_notnull eqb x y = same_notnull eqb y x.
Proof. intros H. destruct x, y; simpl; auto. Qed.

Lemma uq_departure_identity_sym a b :
  uq_departure_identity a b = uq_departure_identity b a.
Proof.
  unfold uq_departure_identity.
  repeat (f_equal; [|first [ apply (same_notnull_sym String.eqb), String.eqb_sym
                           | apply (same_notnull_sym Z.eqb), Z.eqb_sym ]]).
  apply String.eqb_sym.
Qed.

(** [insert_departures] leaves the committed table alone and nothing
    pending. *)
Lemma insert_one_shape st d :
  pending (st.1.1) = [] ->
  committed ((insert_one st d).1.1) = committed (st.1.1)
  /\ pending ((insert_one st d).1.1) = [].
Proof.
  destruct st as [[s i] k]. simpl. intros Hp.
  unfold flush, add. simpl. rewrite Hp. simpl.
  destruct (existsb _ _); simpl; auto.
Qed.

Lemma insert_fold_shape ds st :
  pending (st.1.1) = [] ->
  committed ((fold_left insert_one ds st).1.1) = committed (st.1.1)
  /\ pending ((fold_left insert_one ds st).1.1) = [].
Proof.
  revert st. induction ds as [|d ds IH]; intros st Hp; simpl; [done|].
  destruct (insert_one_shape st d Hp) as [Hc Hp'].
  destruct (IH (insert_one st d) Hp') as [Hc'' Hp''].
  split; [congruence|done].
Qed.

(** The counters do not steer the session. *)
Lemma insert_fold_session ds s i k i' k' :
  (fold_left insert_one ds (s, i, k)).1.1 = (fold_left insert_one ds (s, i', k')).1.1.
Proof.
  revert s i k i' k'. induction ds as [|d ds IH]; intros; simpl; [done|].
  destruct (flush (add s d)); apply IH.
Qed.

(** A row that collides with a row the session sees takes the session
    back to where it was opened. *)
Lemma insert_one_conflict s i k d :
  pending s = [] ->
  existsb (uq_departure_identity d) (visible_rows s) = true ->
  insert_one (s, i, k) d = (open_session (committed s), i, k + 1).
Proof.
  intros Hp Hc. unfold insert_one, flush, add. simpl. rewrite Hp. simpl.
  unfold visible_rows in Hc. by rewrite Hc.
Qed.

(** The defect behind C1: of two departures with the same identity, put
    into an empty table in one session, the first is counted as inserted
    and the second as skipped, and after the commit the table has no
    row: the rollback of the second took the first with it. *)
Theorem duplicate_pair_leaves_no_row (d d' : Departure) :
  uq_departure_identity d d' = true ->
  insert_and_commit [] [d; d'] = Some ([], 1, 1).
Proof.
  intros H. rewrite uq_departure_identity_sym in H.
  unfold insert_and_commit, insert_departures. simpl.
  unfold flush, add. simpl. by rewrite H.
Qed.

(** The defect behind C2: when a departure of the batch collides with a
    row that is committed, or that the batch has flushed before it, the
    table after the commit is the one that the rest of the batch, from
    the next departure on, would have produced alone: the rows flushed
    before the collision are not in it. *)
Theorem conflict_discards_rows_flushed_before
    (store pre post : list Departure) (d : Departure) :
  existsb (uq_departure_identity d)
          (visible_rows (insert_departures (open_session store) pre).1.1) = true ->
  (fun r => r.1.1) <$> insert_and_commit store (pre ++ d :: post)
  = (fun r => r.1.1) <$> insert_and_commit store post.
Proof.
  intros Hc.
  assert (E : (insert_departures (open_session store) (pre ++ d :: post)).1.1
              = (insert_departures (open_session store) post).1.1).
  { unfold insert_departures in *. rewrite fold_left_app. simpl.
    destruct (insert_fold_shape pre (open_session store, 0, 0) eq_refl) as [Hcm Hp].
    destruct (fold_left insert_one pre (open_session store, 0, 0)) as [[s i] k].
    simpl in Hcm, Hp, Hc.
    rewrite insert_one_conflict by done.
    rewrite Hcm. apply insert_fold_session. }
  unfold insert_and_commit.
  destruct (insert_departures (open_session store) (pre ++ d :: post)) as [[sa ia] ka].
  destruct (insert_departures (open_session store) post) as [[sb ib] kb].
  simpl in E. subst sb. by destruct (commit sa).
Qed.

(** A further way in which two inserts of one departure do not end in one
    row: a NULL in the key never collides. *)
Lemma null_key_never_collides d d' :
  planned_departure_time d = None -> uq_departure_identity d d' = false.
Proof.
  intros H. unfold uq_departure_identity. rewrite H. simpl.
  by rewrite andb_false_r.
Qed.

End InsertProperties.

Section InsertExamples.
Import Py Departures Ingest Examples.
Local Open Scope Z_scope.

(** The two departures of [test_insert_departures_dedup]. *)
Lemma duplicate_pair_leaves_no_row_witness :
  uq_departure_identity t17_first t17_again = true
  /\ insert_and_commit [] [t17_first; t17_again] = Some ([], 1, 1).
Proof.
  split; [reflexivity|].
  apply (duplicate_pair_leaves_no_row t17_first t17_again). reflexivity.
Defined.

(** The run of the test, and the count of rows that the claim expects
    to be 1. *)
Lemma dedup_test_stores_no_row :
  insert_and_commit [] [t17_first; t17_again] = Some ([], 1, 1)
  /\ (forall table n k,
        insert_and_commit [] [t17_first; t17_again] = Some (table, n, k) ->
        length table <> 1%nat).
Proof.
  split; [reflexivity|].
  intros table n k H. vm_compute in H. injection H as <- _ _. discriminate.
Qed.

(** A new row followed by a duplicate of a committed row: the new row is
    not in the table after the commit. *)
Lemma conflict_discards_rows_flushed_before_witness :
  existsb (uq_departure_identity t17_again)
          (visible_rows (insert_departures (open_session [t17_first]) [t18]).1.1) = true
  /\ (fun r => r.1.1) <$> insert_and_commit [t17_first] ([t18] ++ t17_again :: [])
     = Some [t17_first].
Proof.
  split; [reflexivity|].
  rewrite (conflict_discards_rows_flushed_before [t17_first] [t18] [] t17_again eq_refl).
  reflexivity.
Defined.

(** The same within one batch on an empty table: the second [T17]
    collides with the first, and the commit stores neither [T18] nor
    [T17]. *)
Lemma batch_conflict_empties_table :
  insert_and_commit [] [t18; t17_first; t17_again] = Some ([], 2, 1).
Proof. reflexivity. Qed.

(** A departure without a planned time, inserted twice, is stored twice. *)
Lemma null_key_pair_stored_twice :
  insert_and_commit [] [no_planned_time 1700000000; no_planned_time 1700000060]
  = Some ([no_planned_time 1700000000; no_planned_time 1700000060], 2, 0).
Proof. reflexivity. Qed.

(** A batch of two stations on a table that has [t17_first]: the new row
    [t18] is flushed and counted, then the duplicate rolls the session
    back, and the committed table lacks [t18]. *)
Lemma batch_loses_row_flushed_before_conflict :
  uq_departure_identity t18 t17_first = false
  /\ persist_results [t17_first] [("s1", [t18]); ("s1", [t17_again])]
     = Some ([t17_first], 2, 1, 1)
  /\ ~ In t18 [t17_first].
Proof.
  split; [reflexivity|]. split; [reflexivity|].
  intros [H|[]]. discriminate H.
Qed.

End InsertExamples.

(** ** poller.py: the sleeps of a round *)

Section PollerProperties.
Import Poller.
Local Open Scope Z_scope.

Variable polling_interval_seconds : Z.

Lemma round_after_success ev st :
  pass_ok ev = true -> stop_before_check ev = false ->
  backoff (round polling_interval_seconds ev st) = 1
  /\ sleeps (round polling_interval_seconds ev st)
     = sleeps st ++ [Z.max 0 (polling_interval_seconds - pass_duration ev)].
Proof.
  intros Hok Hs. unfold round, attempt, sleep_time, sleep.
  rewrite Hok, Hs. simpl. split; [reflexivity|].
  do 3 f_equal. lia.
Qed.

Lemma round_after_failure ev st :
  pass_ok ev = false -> stop_before_check ev = false ->
  backoff (round polling_interval_seconds ev st) = Z.min (backoff st * 2) 60
  /\ sleeps (round polling_interval_seconds ev st)
     = sleeps st
       ++ [backoff st;
           Z.max 0 (polling_interval_seconds - (pass_duration ev + backoff st))]
  /\ now (round polling_interval_seconds ev st)
     = now st + Z.max polling_interval_seconds (pass_duration ev + backoff st).
Proof.
  intros Hok Hs. unfold round, attempt, sleep_time, sleep.
  rewrite Hok, Hs. simpl. split; [reflexivity|]. split.
  - rewrite <- app_assoc. simpl. do 4 f_equal. lia.
  - lia.
Qed.

Lemma doubled_closed_form k : doubled k 1 = Z.min (2 ^ Z.of_nat k) 60.
Proof.
  assert (G : forall k b, 1 <= b <= 60 -> doubled k b = Z.min (b * 2 ^ Z.of_nat k) 60).
  { clear k. induction k as [|k IH]; intros b Hb.
    - simpl. lia.
    - cbn [doubled]. rewrite IH by lia.
      rewrite Nat2Z.inj_succ, Z.pow_succ_r by lia.
      assert (1 <= 2 ^ Z.of_nat k) by (apply Z.lt_pred_le, Z.pow_pos_nonneg; lia).
      nia. }
  rewrite G by lia. f_equal. lia.
Qed.

Lemma run_failures envs st :
  stop st = false ->
  Forall (fun ev => pass_ok ev = false /\ stop_before_check ev = false
                    /\ stop_during_sleep ev = false) envs ->
  backoff (run polling_interval_seconds envs st) = doubled (length envs) (backoff st)
  /\ stop (run polling_interval_seconds envs st) = false.
Proof.
  intros Hst Hall. revert st Hst.
  induction Hall as [|ev envs (Hok & Hs1 & Hs2) _ IH]; intros st Hst; simpl; [done|].
  rewrite Hst.
  destruct (round_after_failure ev st Hok Hs1) as (Hb & _).
  rewrite <- Hb. apply IH.
  unfold round. by rewrite Hs1.
Qed.

(** C3, as amended.  In a round whose pass raises and that is not
    stopped, the poller sleeps the current backoff and then
    [max(0, interval - elapsed)], where [elapsed] runs from the start of
    the round and so contains the backoff sleep: the round lasts
    [max(interval, pass + backoff)], the same as a round whose pass
    returns whenever the pass and the backoff fit into the interval.
    The backoff is 1 at the start, [min(2 * backoff, 60)] after a
    failure, that is [min(2^k, 60)] after [k] failures in a row, and 1
    again after a pass that returns. *)
Theorem failed_round_sleeps (ev : round_env) (st : state) :
  pass_ok ev = false -> stop_before_check ev = false ->
  sleeps (round polling_interval_seconds ev st)
  = sleeps st
    ++ [backoff st;
        Z.max 0 (polling_interval_seconds - (pass_duration ev + backoff st))]
  /\ now (round polling_interval_seconds ev st)
     = now st + Z.max polling_interval_seconds (pass_duration ev + backoff st)
  /\ backoff (round polling_interval_seconds ev st) = Z.min (backoff st * 2) 60
  /\ (forall t, backoff (initial t) = 1)
  /\ (forall t envs,
        Forall (fun ev => pass_ok ev = false /\ stop_before_check ev = false
                          /\ stop_during_sleep ev = false) envs ->
        backoff (run_poller polling_interval_seconds envs t)
        = Z.min (2 ^ Z.of_nat (length envs)) 60)
  /\ (forall ev' st', pass_ok ev' = true ->
        backoff (round polling_interval_seconds ev' st') = 1).
Proof.
  intros Hok Hs.
  destruct (round_after_failure ev st Hok Hs) as (Hb & Hsl & Hnow).
  repeat split; try assumption.
  - intros t envs Hall. unfold run_poller.
    destruct (run_failures envs (initial t) eq_refl Hall) as [-> _].
    apply doubled_closed_form.
  - intros ev' st' Hok'. unfold round, attempt. rewrite Hok'.
    by destruct (stop_before_check ev').
Qed.

End PollerProperties.

Section PollerExamples.
Import Poller Examples.
Local Open Scope Z_scope.

(** An interval of 30, a pass of 2 that raises, a backoff of 1. *)
Lemma failed_round_sleeps_witness :
  pass_ok failing_pass = false
  /\ stop_before_check failing_pass = false
  /\ sleeps (round 30 failing_pass (initial 0)) = [1; 27]
  /\ now (round 30 failing_pass (initial 0)) = 30
  /\ backoff (round 30 failing_pass (initial 0)) = 2.
Proof.
  split; [reflexivity|]. split; [reflexivity|].
  destruct (failed_round_sleeps 30 failing_pass (initial 0) eq_refl eq_refl)
    as (H1 & H2 & H3 & _).
  rewrite H1, H2, H3. repeat split.
Defined.

(** C3 as stated fails: with an interval of 30 and a pass of 2, the round
    that fails with backoff 1 sleeps 1 and 27 and ends at the same time
    as the round that succeeds, which sleeps 28; the backoff has added
    nothing to the length of the round. *)
Lemma backoff_absorbed_into_interval :
  sleeps (round 30 failing_pass (initial 0)) = [1; 27]
  /\ sleeps (round 30 passing_pass (initial 0)) = [28]
  /\ now (round 30 failing_pass (initial 0)) = now (round 30 passing_pass (initial 0))
  /\ now (round 30 failing_pass (initial 0))
     <> now (round 30 passing_pass (initial 0)) + backoff (initial 0).
Proof. repeat split; try reflexivity. discriminate. Qed.

End PollerExamples.

(** ** gtfs_index.py: the label index *)

Section OrderedDict.
Import GtfsIndex.
Context {V : Type}.
Implicit Types (d : odict V) (k : string) (v : V).

Lemma od_get_set d k v k' :
  od_get (od_set d k v) k' = if String.eqb k' k then Some v else od_get d k'.
Proof.
  induction d as [|[k0 v0] d IH]; simpl; [reflexivity|].
  destruct (String.eqb_spec k k0) as [->|Hk]; simpl.
  - by destruct (String.eqb k' k0).
  - rewrite IH.
    destruct (String.eqb_spec k' k0) as [->|]; [|reflexivity].
    by destruct (String.eqb_spec k0 k) as [->|].
Qed.

Lemma restrict_od_set_keep keep d k v :
  keep k = true -> restrict keep (od_set d k v) = od_set (restrict keep d) k v.
Proof.
  intros Hk. induction d as [|[k0 v0] d IH]; simpl.
  - by rewrite Hk.
  - destruct (String.eqb_spec k k0) as [->|Hne]; simpl.
    + rewrite Hk. simpl. by rewrite String.eqb_refl.
    + destruct (keep k0); simpl; [|exact IH].
      rewrite (proj2 (String.eqb_neq k k0) Hne). by rewrite IH.
Qed.

Lemma restrict_od_set_drop keep d k v :
  keep k = false -> restrict keep (od_set d k v) = restrict keep d.
Proof.
  intros Hk. induction d as [|[k0 v0] d IH]; simpl.
  - by rewrite Hk.
  - destruct (String.eqb_spec k k0) as [->|Hne]; simpl.
    + by rewrite Hk.
    + by rewrite IH.
Qed.

Lemma od_get_restrict keep d k :
  keep k = true -> od_get (restrict keep d) k = od_get d k.
Proof.
  intros Hk. induction d as [|[k0 v0] d IH]; simpl; [reflexivity|].
  destruct (keep k0) eqn:Hk0; simpl.
  - by rewrite IH.
  - rewrite IH. destruct (String.eqb_spec k k0) as [->|]; [congruence|reflexivity].
Qed.

End OrderedDict.

Section FoldFacts.

(** A fold that unions one set per element does not depend on the order
    of the elements. *)
Lemma fold_union_elem (f : string -> gset string) (l : list string) (acc : gset string) x :
  x ∈ fold_left (fun a y => a ∪ f y) l acc <-> x ∈ acc \/ exists y, y ∈ l /\ x ∈ f y.
Proof.
  revert acc. induction l as [|y l IH]; intros acc; simpl.
  - split; [auto|]. intros [H|(y & Hy & _)]; [done|]. by apply elem_of_nil in Hy.
  - rewrite IH. split.
    + intros [[H|H]%elem_of_union|(z & Hz & Hx)]; [auto| |].
      * right. exists y. split; [left|done].
      * right. exists z. split; [by right|done].
    + intros [H|(z & Hz & Hx)].
      * left. apply elem_of_union. by left.
      * apply elem_of_cons in Hz as [->|Hz]; [left; apply elem_of_union; by right|].
        right. eauto.
Qed.

Lemma fold_union_perm (f : string -> gset string) (l1 l2 : list string) (acc : gset string) :
  l1 ≡ₚ l2 ->
  fold_left (fun a y => a ∪ f y) l1 acc = fold_left (fun a y => a ∪ f y) l2 acc.
Proof.
  intros Hp. apply set_eq. intros x. rewrite !fold_union_elem.
  by setoid_rewrite Hp.
Qed.

Lemma fold_left_ext_in {A B} (f g : A -> B -> A) (l : list B) (a : A) :
  (forall a b, In b l -> f a b = g a b) -> fold_left f l a = fold_left g l a.
Proof.
  revert a. induction l as [|b l IH]; intros a H; simpl; [reflexivity|].
  rewrite H by (by left). apply IH. intros a' b' Hb. apply H. by right.
Qed.

(** A fold may leave out the elements on which the step does nothing. *)
Lemma fold_left_skip {A B} (f g : A -> B -> A) (keep : B -> bool) (l : list B) (a : A) :
  (forall a b, In b l -> keep b = false -> f a b = a) ->
  (forall a b, In b l -> keep b = true -> f a b = g a b) ->
  fold_left f l a = fold_left g (List.filter keep l) a.
Proof.
  revert a. induction l as [|b l IH]; intros a H1 H2; simpl; [reflexivity|].
  destruct (keep b) eqn:Hb; simpl.
  - rewrite (H2 a b (or_introl eq_refl) Hb).
    apply IH; intros; [apply H1|apply H2]; auto; by right.
  - rewrite (H1 a b (or_introl eq_refl) Hb).
    apply IH; intros; [apply H1|apply H2]; auto; by right.
Qed.

Lemma find_filter {A} (p q : A -> bool) (l : list A) :
  (forall x, In x l -> p x = true -> q x = true) ->
  List.find p (List.filter q l) = List.find p l.
Proof.
  induction l as [|x l IH]; intros H; simpl; [reflexivity|].
  destruct (p x) eqn:Hp.
  - rewrite (H x (or_introl eq_refl) Hp). simpl. by rewrite Hp.
  - destruct (q x); simpl; rewrite ?Hp; apply IH; intros; apply H; auto; by right.
Qed.

End FoldFacts.

Section IndexProperties.
Import Py GtfsIndex.

Implicit Types (enum : site -> string -> gset string -> list string).
Implicit Types (r : row) (rs : list row) (rid : string).

(** *** Enumeration orders do not matter *)

Lemma sorted_perm (l1 l2 : list string) : l1 ≡ₚ l2 -> sorted l1 = sorted l2.
Proof.
  intros Hp. unfold sorted.
  apply (Sorted_unique String.le); try apply Sorted_merge_sort; try apply _.
  by rewrite !merge_sort_Permutation.
Qed.

Lemma enumerates_perm e1 e2 w rid (s : gset string) :
  enumerates e1 -> enumerates e2 -> e1 w rid s ≡ₚ e2 w rid s.
Proof. intros H1 H2. by rewrite (H1 w rid s), (H2 w rid s). Qed.

(** What one stop adds to [base3_keys]. *)
Lemma base3_step_union stop_lookup keys sid :
  base3_step stop_lookup keys sid = keys ∪ base3_step stop_lookup ∅ sid.
Proof.
  unfold base3_step.
  destruct (stop_lookup !! sid) as [sinfo|]; [|by rewrite (right_id_L ∅ (∪))].
  destruct (bool_decide (sinfo = ∅)); [by rewrite (right_id_L ∅ (∪))|].
  by rewrite (right_id_L ∅ (∪)), (comm_L (∪)).
Qed.

Lemma base3_fold_perm stop_lookup (l1 l2 : list string) :
  l1 ≡ₚ l2 ->
  fold_left (base3_step stop_lookup) l1 ∅ = fold_left (base3_step stop_lookup) l2 ∅.
Proof.
  intros Hp.
  rewrite (fold_left_ext_in (base3_step stop_lookup)
             (fun a y => a ∪ base3_step stop_lookup ∅ y) l1)
    by (intros; apply base3_step_union).
  rewrite (fold_left_ext_in (base3_step stop_lookup)
             (fun a y => a ∪ base3_step stop_lookup ∅ y) l2)
    by (intros; apply base3_step_union).
  by apply fold_union_perm.
Qed.

Lemma route_stops_step_enum e1 e2 trip_stops acc item :
  enumerates e1 -> enumerates e2 ->
  route_stops_step e1 trip_stops acc item = route_stops_step e2 trip_stops acc item.
Proof.
  intros H1 H2. destruct item as [rid tids]. unfold route_stops_step.
  f_equal. apply fold_union_perm. by apply enumerates_perm.
Qed.

Lemma store_enum e1 e2 w rid m bucket label ids :
  enumerates e1 -> enumerates e2 ->
  store e1 w rid m bucket label ids = store e2 w rid m bucket label ids.
Proof.
  intros H1 H2. unfold store. do 2 f_equal.
  apply sorted_perm. by apply enumerates_perm.
Qed.

Lemma index_step_enum e1 e2 rs rp stop_lookup sbm m item :
  enumerates e1 -> enumerates e2 ->
  index_step e1 rs rp stop_lookup sbm m item = index_step e2 rs rp stop_lookup sbm m item.
Proof.
  intros H1 H2. destruct item as [rid sids]. unfold index_step.
  destruct (find_route rs rid) as [r|]; [|reflexivity].
  destruct (nonempty (Some (route_label r))) as [label|]; [|reflexivity].
  destruct (nonempty (rp !! rid)) as [prod|]; [|reflexivity].
  rewrite (base3_fold_perm stop_lookup (e1 EStops rid sids) (e2 EStops rid sids))
    by (by apply enumerates_perm).
  set (keys := fold_left (base3_step stop_lookup) (e2 EStops rid sids) ∅).
  rewrite (fold_union_perm (fun k => default ∅ (sbm !! k))
             (e1 EKeys rid keys) (e2 EKeys rid keys))
    by (by apply enumerates_perm).
  set (sel := fold_left _ (e2 EKeys rid keys) ∅).
  rewrite (store_enum e1 e2 ESortProduct) by done.
  by rewrite (store_enum e1 e2 ESortAll) by done.
Qed.

Lemma build_label_index_enum e1 e2 f products labels stations :
  enumerates e1 -> enumerates e2 ->
  build_label_index e1 f products labels stations
  = build_label_index e2 f products labels stations.
Proof.
  intros H1 H2. unfold build_label_index.
  destruct (select_routes _ _ _) as [route_ids route_product].
  rewrite (fold_left_ext_in (route_stops_step e1 _) (route_stops_step e2 _))
    by (intros; by apply route_stops_step_enum).
  apply fold_left_ext_in. intros. by apply index_step_enum.
Qed.

(** *** Every list of the index is ascending *)

Lemma sorted_ascending enum w rid (s : gset string) :
  enumerates enum -> Sorted String.le (sorted (enum w rid s)) /\ NoDup (sorted (enum w rid s)).
Proof.
  intros He. split.
  - apply Sorted_merge_sort; apply _.
  - unfold sorted. rewrite merge_sort_Permutation, (He w rid s). apply NoDup_elements.
Qed.

Lemma store_ascending enum w rid m bucket label ids :
  enumerates enum -> lists_ascending m ->
  lists_ascending (store enum w rid m bucket label ids).
Proof.
  intros He Hm product inner lab l. unfold store.
  rewrite od_get_set.
  destruct (String.eqb_spec product bucket) as [->|Hne]; [|apply Hm].
  intros [= <-]. rewrite od_get_set.
  destruct (String.eqb_spec lab label) as [->|Hne].
  - intros [= <-]. by apply sorted_ascending.
  - destruct (od_get m bucket) as [inner|] eqn:E; simpl; [|discriminate].
    by apply (Hm bucket inner).
Qed.

Lemma index_step_ascending enum rs rp stop_lookup sbm m item :
  enumerates enum -> lists_ascending m ->
  lists_ascending (index_step enum rs rp stop_lookup sbm m item).
Proof.
  intros He Hm. destruct item as [rid sids]. unfold index_step.
  destruct (find_route rs rid) as [r|]; [|done].
  destruct (nonempty (Some (route_label r))) as [label|]; [|done].
  destruct (nonempty (rp !! rid)) as [prod|]; [|done].
  cbv zeta. apply store_ascending; [done|]. by apply store_ascending.
Qed.

Lemma fold_index_ascending enum rs rp stop_lookup sbm items m :
  enumerates enum -> lists_ascending m ->
  lists_ascending (fold_left (index_step enum rs rp stop_lookup sbm) items m).
Proof.
  intros He. revert m. induction items as [|item items IH]; intros m Hm; simpl; [done|].
  by apply IH, index_step_ascending.
Qed.

(** C8.  Whatever the orders in which the sets are enumerated, the index
    built from given tables, filters and stations is the same, so two
    builds from the same inputs agree; and each of its lists of station
    ids is sorted ascending and has no repetition. *)
Theorem index_deterministic_and_sorted
    (e1 e2 : site -> string -> gset string -> list string)
    (f : feed) (products labels : option (gset string))
    (stations : list Ingest.Station) :
  enumerates e1 -> enumerates e2 ->
  build_label_index e1 f products labels stations
  = build_label_index e2 f products labels stations
  /\ lists_ascending (build_label_index e1 f products labels stations).
Proof.
  intros H1 H2. split; [by apply build_label_index_enum|].
  unfold build_label_index.
  destruct (select_routes _ _ _) as [route_ids route_product].
  apply fold_index_ascending; [done|].
  intros product inner label ids Hget. discriminate Hget.
Qed.

End IndexProperties.

Section UnmappedRoutes.
Import Py GtfsIndex.

Implicit Types (r : row) (rs : list row) (rid : string).
Implicit Types (acc : gset string * gmap string string).

Lemma nonempty_Some (v : option string) (s : string) :
  nonempty v = Some s -> v = Some s.
Proof. destruct v as [[|c v]|]; simpl; congruence. Qed.

Lemma unmapped_no_product r : mapped r = false -> route_type_product r = None.
Proof. unfold mapped. by destruct (route_type_product r). Qed.

Lemma route_step_both products labels acc acc' r :
  selections_agree acc acc' ->
  selections_agree (route_step products labels acc r) (route_step products labels acc' r).
Proof.
  intros (H2 & H1 & Hd). unfold route_step.
  destruct (product_excluded _ _); [done|].
  destruct (label_excluded _ _); [done|].
  destruct (nonempty (r !! "route_id")) as [rid|]; [|done].
  unfold selections_agree. simpl.
  destruct (nonempty (route_type_product r)) as [p|].
  - rewrite H2. split; [done|]. split.
    + apply union_mono_l, H1.
    + rewrite dom_insert_L. apply union_mono_l, Hd.
  - split; [done|]. split.
    + apply union_mono_l, H1.
    + etrans; [exact Hd|]. apply union_subseteq_r.
Qed.

Lemma route_step_left products labels acc acc' r :
  mapped r = false ->
  selections_agree acc acc' ->
  selections_agree (route_step products labels acc r) acc'.
Proof.
  intros Hr (H2 & H1 & Hd). unfold route_step.
  rewrite (unmapped_no_product r Hr).
  destruct (product_excluded _ _); [done|].
  destruct (label_excluded _ _); [done|].
  destruct (nonempty (r !! "route_id")) as [rid|]; [|done].
  unfold selections_agree. simpl. split; [done|]. split; [|done].
  etrans; [exact H1|]. apply union_subseteq_r.
Qed.

Lemma select_routes_agree products labels rs acc acc' :
  selections_agree acc acc' ->
  selections_agree (fold_left (route_step products labels) rs acc)
                   (fold_left (route_step products labels) (List.filter mapped rs) acc').
Proof.
  revert acc acc'. induction rs as [|r rs IH]; intros acc acc' H; simpl; [done|].
  destruct (mapped r) eqn:Hr; simpl.
  - by apply IH, route_step_both.
  - by apply IH, route_step_left.
Qed.

(** A route id gets a product only from a route of a mapped type. *)
Lemma select_routes_origin products labels rs0 rs acc :
  (forall r, In r rs -> In r rs0) ->
  (forall rid p, acc.2 !! rid = Some p ->
     exists r, In r rs0 /\ r !! "route_id" = Some rid /\ mapped r = true) ->
  forall rid p,
    (fold_left (route_step products labels) rs acc).2 !! rid = Some p ->
    exists r, In r rs0 /\ r !! "route_id" = Some rid /\ mapped r = true.
Proof.
  revert acc. induction rs as [|r rs IH]; intros acc Hsub Hacc; simpl; [exact Hacc|].
  apply IH; [intros; apply Hsub; by right|].
  intros rid p. unfold route_step.
  destruct (product_excluded _ _); [apply Hacc|].
  destruct (label_excluded _ _); [apply Hacc|].
  destruct (nonempty (r !! "route_id")) as [rid'|] eqn:Hrid; [|apply Hacc].
  simpl. destruct (nonempty (route_type_product r)) as [p'|] eqn:Hp; [|apply Hacc].
  destruct (decide (rid' = rid)) as [->|Hne].
  - intros _. exists r. split; [apply Hsub; by left|].
    split; [by apply nonempty_Some|].
    unfold mapped. by rewrite (nonempty_Some _ _ Hp).
  - rewrite lookup_insert_ne by done. apply Hacc.
Qed.

(** The trips of the smaller selection are those of the larger one,
    restricted to its route ids. *)
Lemma trips_restrict (ids ids' : gset string) (ts : list row) (acc : odict (gset string)) :
  ids' ⊆ ids ->
  fold_left (trip_step ids') ts (restrict (fun k => bool_decide (k ∈ ids')) acc)
  = restrict (fun k => bool_decide (k ∈ ids')) (fold_left (trip_step ids) ts acc).
Proof.
  intros Hsub. revert acc. induction ts as [|t ts IH]; intros acc; simpl; [done|].
  rewrite <- IH. f_equal. unfold trip_step.
  destruct (t !! "route_id") as [rid|]; [|done].
  destruct (decide (rid ∈ ids')) as [Hin|Hout].
  - rewrite (bool_decide_eq_true_2 _ Hin), (bool_decide_eq_true_2 _ (Hsub _ Hin)).
    destruct (nonempty (t !! "trip_id")) as [tid|]; [|done].
    unfold od_add.
    rewrite restrict_od_set_keep by (by apply bool_decide_eq_true_2).
    by rewrite od_get_restrict by (by apply bool_decide_eq_true_2).
  - rewrite (bool_decide_eq_false_2 _ Hout).
    destruct (bool_decide (rid ∈ ids)); [|done].
    destruct (nonempty (t !! "trip_id")) as [tid|]; [|done].
    unfold od_add.
    by rewrite restrict_od_set_drop by (by apply bool_decide_eq_false_2).
Qed.

Lemma route_stops_restrict enum trip_stops (keep : string -> bool)
    (items acc : odict (gset string)) :
  fold_left (route_stops_step enum trip_stops) (restrict keep items) (restrict keep acc)
  = restrict keep (fold_left (route_stops_step enum trip_stops) items acc).
Proof.
  revert acc. induction items as [|[rid tids] items IH]; intros acc; simpl; [done|].
  destruct (keep rid) eqn:Hk; simpl.
  - rewrite <- IH. f_equal. by rewrite restrict_od_set_keep.
  - rewrite <- IH. f_equal. by rewrite restrict_od_set_drop.
Qed.

(** A route id without a product leaves the mapping as it is. *)
Lemma index_step_no_product enum rs rp stop_lookup sbm m rid sids :
  rp !! rid = None ->
  index_step enum rs rp stop_lookup sbm m (rid, sids) = m.
Proof.
  intros Hrp. unfold index_step. rewrite Hrp.
  destruct (find_route rs rid) as [r|]; [|done].
  by destruct (nonempty (Some (route_label r))).
Qed.

Lemma find_route_mapped rs rid :
  (forall r, In r rs -> r !! "route_id" = Some rid -> mapped r = true) ->
  find_route (List.filter mapped rs) rid = find_route rs rid.
Proof.
  intros H. unfold find_route. apply find_filter.
  intros r Hin Hr. apply H; [done|]. by apply bool_decide_eq_true_1 in Hr.
Qed.

(** C4, as amended.  When no route id is shared by a route of a mapped
    type and a route of an unmapped type, the index built from a feed,
    for any product and label filters (none included), is the index built
    from the feed without its routes of unmapped type: those routes put
    no station id under any product or under ["ALL"]. *)
Theorem unmapped_routes_contribute_nothing
    (enum : site -> string -> gset string -> list string)
    (f : feed) (products labels : option (gset string))
    (stations : list Ingest.Station) :
  ids_consistent (routes f) ->
  build_label_index enum f products labels stations
  = build_label_index enum (drop_unmapped f) products labels stations.
Proof.
  intros Hcons. unfold build_label_index, drop_unmapped, select_routes. simpl.
  set (P := norm_products products). set (L := norm_labels labels).
  assert (Hagree : selections_agree
            (fold_left (route_step P L) (routes f) (∅, ∅))
            (fold_left (route_step P L) (List.filter mapped (routes f)) (∅, ∅))).
  { apply select_routes_agree. unfold selections_agree. simpl.
    split; [done|]. split; [done|]. by rewrite dom_empty_L. }
  assert (Horigin : forall rid p,
            (fold_left (route_step P L) (routes f) (∅, ∅)).2 !! rid = Some p ->
            exists r, In r (routes f) /\ r !! "route_id" = Some rid /\ mapped r = true).
  { apply (select_routes_origin P L (routes f)); [done|].
    intros rid p Hl. simpl in Hl. by rewrite lookup_empty in Hl. }
  destruct (fold_left (route_step P L) (routes f) (∅, ∅)) as [ids rp].
  destruct (fold_left (route_step P L) (List.filter mapped (routes f)) (∅, ∅))
    as [ids' rp'].
  destruct Hagree as (Hrp & Hsub & Hdom). simpl in Hrp, Hsub, Hdom, Horigin. subst rp'.
  set (keep := fun k : string => bool_decide (k ∈ ids')).
  set (trip_stops := fold_left stop_time_step (stop_times f) ∅).
  assert (Ht : fold_left (trip_step ids') (trips f) []
               = restrict keep (fold_left (trip_step ids) (trips f) []))
    by exact (trips_restrict ids ids' (trips f) [] Hsub).
  rewrite Ht.
  assert (Hr : forall items,
             fold_left (route_stops_step enum trip_stops) (restrict keep items) []
             = restrict keep (fold_left (route_stops_step enum trip_stops) items []))
    by (intros items; exact (route_stops_restrict enum trip_stops keep items [])).
  rewrite Hr.
  unfold restrict.
  apply (fold_left_skip _ _ (fun kv => keep kv.1)).
  - intros m [rid sids] _ Hk. simpl in Hk.
    apply index_step_no_product.
    apply bool_decide_eq_false_1 in Hk.
    apply not_elem_of_dom. intros Hd. apply Hk, Hdom, Hd.
  - intros m [rid sids] _ _.
    destruct (rp !! rid) as [p|] eqn:Hp; [|by rewrite !index_step_no_product].
    unfold index_step. rewrite find_route_mapped; [done|].
    destruct (Horigin rid p Hp) as (r0 & Hin0 & Hid0 & Hm0).
    intros r Hin Hid. by apply (Hcons r0 r rid).
Qed.

End UnmappedRoutes.

Section IndexExamples.
Import Py GtfsIndex Examples.

Lemma in_order_enumerates : enumerates in_order.
Proof. intros w rid s. reflexivity. Qed.

Lemma in_reverse_enumerates : enumerates in_reverse.
Proof. intros w rid s. apply reverse_Permutation. Qed.

(** The feed with distinct route ids, its sets enumerated in order and in
    reverse. *)
Lemma index_deterministic_and_sorted_witness :
  enumerates in_order /\ enumerates in_reverse
  /\ build_label_index in_order feed_distinct_ids None None cached_stations
     = build_label_index in_reverse feed_distinct_ids None None cached_stations
  /\ lists_ascending (build_label_index in_order feed_distinct_ids None None cached_stations)
  /\ build_label_index in_reverse feed_distinct_ids None None cached_stations
     = [("TRAM", [("19", ["de:1:2"; "de:1:2:5"])]);
        ("ALL", [("19", ["de:1:2"; "de:1:2:5"; "de:1:3"])]);
        ("BUS", [("19", ["de:1:2"; "de:1:2:5"; "de:1:3"])])].
Proof.
  split; [exact in_order_enumerates|]. split; [exact in_reverse_enumerates|].
  destruct (index_deterministic_and_sorted in_order in_reverse feed_distinct_ids
              None None cached_stations in_order_enumerates in_reverse_enumerates)
    as [Heq Hsorted].
  split; [exact Heq|]. split; [exact Hsorted|].
  vm_compute. reflexivity.
Defined.

Lemma feed_distinct_ids_consistent : ids_consistent (routes feed_distinct_ids).
Proof.
  intros r r' rid Hr Hr' Hid Hid' Hm.
  simpl in Hr, Hr'.
  destruct Hr as [<-|[<-|[<-|[]]]]; destruct Hr' as [<-|[<-|[<-|[]]]];
    vm_compute in Hid, Hid', Hm |- *; congruence.
Qed.

(** The feed with distinct route ids, of which [Q] has an unmapped type. *)
Lemma unmapped_routes_contribute_nothing_witness :
  ids_consistent (routes feed_distinct_ids)
  /\ mapped (route "Q" "7" "n1") = false
  /\ build_label_index in_order feed_distinct_ids None None cached_stations
     = build_label_index in_order (drop_unmapped feed_distinct_ids) None None cached_stations.
Proof.
  split; [exact feed_distinct_ids_consistent|]. split; [reflexivity|].
  apply (unmapped_routes_contribute_nothing in_order feed_distinct_ids None None
           cached_stations feed_distinct_ids_consistent).
Defined.

(** C4 as stated fails on a feed in which a route of unmapped type shares
    its id with a tram route listed after it: the label is read from the
    first route with the id, so the station ids of the trips of [R] are
    filed under the label [X] of the unmapped route, for the product
    TRAM and for ["ALL"], and the index is not the one of the feed
    without the unmapped route. *)
Lemma unmapped_route_sharing_id_is_indexed :
  In unmapped_x (routes feed_shared_id)
  /\ route_type_product unmapped_x = None
  /\ route_label unmapped_x = "X"
  /\ build_label_index in_order feed_shared_id None None cached_stations
     = [("TRAM", [("X", ["de:1:2"; "de:1:2:5"])]);
        ("ALL", [("X", ["de:1:2"; "de:1:2:5"])])]
  /\ build_label_index in_order (drop_unmapped feed_shared_id) None None cached_stations
     = [("TRAM", [("Y", ["de:1:2"; "de:1:2:5"])]);
        ("ALL", [("Y", ["de:1:2"; "de:1:2:5"])])]
  /\ build_label_index in_order feed_shared_id None None cached_stations
     <> build_label_index in_order (drop_unmapped feed_shared_id) None None cached_stations.
Proof.
  split; [by left|]. split; [reflexivity|]. split; [reflexivity|].
  split; [vm_compute; reflexivity|]. split; [vm_compute; reflexivity|].
  vm_compute. discriminate.
Qed.

End IndexExamples.

(** ** departures.py: more on delays and timestamps *)

Section DelayProperties.
Import Py Departures.
Local Open Scope Z_scope.

Variable float_of_str : string -> option pyfloat.

Lemma round_half_even_div_opp a d :
  0 < d -> round_half_even_div (- a) d = - round_half_even_div a d.
Proof.
  intros Hd. apply round_half_even_div_char; [done|].
  destruct (round_half_even_div_near a d Hd) as [H|[H He]].
  - left. lia.
  - right. split; [lia|]. by rewrite Z.even_opp.
Qed.

Lemma round_half_even_div_mono a b d :
  0 < d -> a <= b -> round_half_even_div a d <= round_half_even_div b d.
Proof.
  intros Hd Hab.
  destruct (Z.eq_dec a b) as [->|Hne]; [lia|].
  pose proof (round_half_even_div_near a d Hd) as Ha.
  pose proof (round_half_even_div_near b d Hd) as Hb.
  set (Na := round_half_even_div a d) in *.
  set (Nb := round_half_even_div b d) in *.
  destruct (Z_le_gt_dec Na Nb) as [|Hgt]; [done|exfalso].
  assert (2 * Z.abs (a - d * Na) <= d) by (destruct Ha as [?|[? _]]; lia).
  assert (2 * Z.abs (b - d * Nb) <= d) by (destruct Hb as [?|[? _]]; lia).
  nia.
Qed.

(** X1.  When no delay is given and both times are known, less than
    [2^53] seconds apart, the delay stored is a whole number of minutes
    within 30 seconds of the difference of the two times. *)
Theorem derived_delay_within_half_minute (item : gmap string json)
    (planned realtime : Z) :
  get item "delay_in_minutes" = JNull ->
  get item "delayInMinutes" = JNull ->
  item_planned float_of_str item = Some planned ->
  item_realtime float_of_str item = Some realtime ->
  - 2 ^ 53 <= realtime - planned <= 2 ^ 53 ->
  exists d,
    item_delay float_of_str item = Some (JInt d)
    /\ Z.abs (realtime - planned - 60 * d) <= 30.
Proof.
  intros H1 H2 Hp Hr Hb.
  rewrite (item_delay_of_null float_of_str item)
    by (unfold py_or; by rewrite H1, H2).
  rewrite Hp, Hr. unfold derived_delay. rewrite round_of_quotient by done. simpl.
  eexists. split; [reflexivity|].
  destruct (round_half_even_div_near (realtime - planned) 60 ltac:(lia))
    as [H|[H _]]; lia.
Qed.

(** X2.  The derived delay of times less than [2^53] seconds apart is
    an integer, changes sign when the two times are exchanged, and does
    not decrease when the realtime departure is later. *)
Theorem derived_delay_order (planned realtime realtime' : Z) :
  - 2 ^ 53 <= realtime - planned <= 2 ^ 53 ->
  - 2 ^ 53 <= realtime' - planned <= 2 ^ 53 ->
  exists d d',
    derived_delay (Some planned) (Some realtime) = Some (JInt d)
    /\ derived_delay (Some planned) (Some realtime') = Some (JInt d')
    /\ derived_delay (Some realtime) (Some planned) = Some (JInt (- d))
    /\ (realtime <= realtime' -> d <= d').
Proof.
  intros H1 H2. unfold derived_delay.
  rewrite !round_of_quotient by lia. simpl.
  eexists _, _. split; [reflexivity|]. split; [reflexivity|]. split.
  - replace (planned - realtime) with (- (realtime - planned)) by lia.
    by rewrite round_half_even_div_opp.
  - intros Hle. apply round_half_even_div_mono; lia.
Qed.

(** X3.  An integer timestamp from [-2^53] to below [10^13 + 1000] is
    normalized to a value of at most [10^10], which a second
    normalization leaves as it is. *)
Theorem normalize_reaches_seconds_range (z : Z) :
  - 2 ^ 53 <= z < 10000000001000 ->
  exists v,
    _normalize_epoch_seconds float_of_str (JInt z) = Some v
    /\ v <= 10000000000
    /\ _normalize_epoch_seconds float_of_str (JInt v) = Some v.
Proof.
  intros Hz. rewrite normalize_int_exact by lia.
  destruct (Z.ltb_spec 10000000000 z) as [Hgt|Hle].
  - exists (z / 1000).
    assert (z / 1000 <= 10000000000).
    { apply Z.lt_succ_r, Z.div_lt_upper_bound; lia. }
    assert (0 <= z / 1000) by (apply Z.div_pos; lia).
    split; [done|]. split; [done|].
    rewrite normalize_int_exact by lia.
    by replace (10000000000 <? z / 1000) with false
      by (symmetry; apply Z.ltb_ge; lia).
  - exists z. split; [done|]. split; [done|].
    rewrite normalize_int_exact by lia.
    by replace (10000000000 <? z) with false by (symmetry; apply Z.ltb_ge; lia).
Qed.

End DelayProperties.


Section DelayExamples.
Import Py Departures Examples.
Local Open Scope Z_scope.

(** A timestamp in milliseconds. *)
Lemma normalize_reaches_seconds_range_witness :
  - 2 ^ 53 <= 1700000000000 < 10000000001000
  /\ exists v,
       _normalize_epoch_seconds no_str (JInt 1700000000000) = Some v
       /\ v <= 10000000000
       /\ _normalize_epoch_seconds no_str (JInt v) = Some v.
Proof.
  split; [lia|]. apply (normalize_reaches_seconds_range no_str 1700000000000). lia.
Defined.

(** The payload of the test: five minutes late. *)
Lemma derived_delay_within_half_minute_witness :
  get item_no_delay "delay_in_minutes" = JNull
  /\ get item_no_delay "delayInMinutes" = JNull
  /\ item_planned no_str item_no_delay = Some 1700000000
  /\ item_realtime no_str item_no_delay = Some 1700000300
  /\ exists d,
       item_delay no_str item_no_delay = Some (JInt d)
       /\ Z.abs (1700000300 - 1700000000 - 60 * d) <= 30.
Proof.
  repeat (split; [reflexivity|]).
  apply (derived_delay_within_half_minute no_str item_no_delay 1700000000 1700000300);
    [reflexivity..|lia].
Defined.

(** Five minutes late, then seven. *)
Lemma derived_delay_order_witness :
  - 2 ^ 53 <= 1700000300 - 1700000000 <= 2 ^ 53
  /\ - 2 ^ 53 <= 1700000420 - 1700000000 <= 2 ^ 53
  /\ exists d d',
       derived_delay (Some 1700000000) (Some 1700000300) = Some (JInt d)
       /\ derived_delay (Some 1700000000) (Some 1700000420) = Some (JInt d')
       /\ derived_delay (Some 1700000300) (Some 1700000000) = Some (JInt (- d))
       /\ (1700000300 <= 1700000420 -> d <= d').
Proof.
  split; [lia|]. split; [lia|].
  apply (derived_delay_order 1700000000 1700000300 1700000420); lia.
Defined.

End DelayExamples.

(** ** Normalizing labels and names *)

Section Normalizing.
Import Py Departures Ingest.



Lemma lower_upper_ascii c : lower_ascii (upper_ascii c) = lower_ascii c.
Proof. destruct c as [[] [] [] [] [] [] [] []]; reflexivity. Qed.


Lemma lower_upper s : lower (upper s) = lower s.
Proof. induction s as [|c s IH]; simpl; [done|]. by rewrite lower_upper_ascii, IH. Qed.











End Normalizing.

(** ** ingest.py: choosing the stations of a pass *)

Section SelectStations.
Import Py Departures Ingest.

Lemma filter_sublist {A} (f : A -> bool) (l : list A) : sublist (List.filter f l) l.
Proof.
  induction l as [|x l IH]; simpl; [constructor|].
  destruct (f x); by constructor.
Qed.

Lemma filter_stations_by_products_sublist stations products :
  sublist (filter_stations_by_products stations products) stations.
Proof.
  unfold filter_stations_by_products.
  destruct products as [ps|]; [|done].
  destruct (_ || _); [done|]. apply filter_sublist.
Qed.

(** X5.  The stations of a pass are a sub-list of the cache, in its
    order: those that pass the product filter, whose name, stripped and
    lower-cased, is that of a requested name when names are requested,
    and whose id is a requested id, stripped, when ids are requested.
    The id of the station itself is compared as it is. *)
Theorem select_stations_spec (stations : list Station)
    (products station_names station_ids : option (gset string)) :
  sublist (select_stations stations products station_names station_ids) stations
  /\ forall s,
       In s (select_stations stations products station_names station_ids)
       <-> In s (filter_stations_by_products stations products)
           /\ (forall names, station_names = Some names -> names ≠ ∅ ->
                 exists x, x ∈ names /\ lower (strip (name s)) = lower (strip x))
           /\ (forall ids, station_ids = Some ids -> ids ≠ ∅ ->
                 exists x, x ∈ ids /\ id s = strip x).
Proof.
  unfold select_stations.
  set (byprod := filter_stations_by_products stations products).
  set (byname := match station_names with
                 | Some names =>
                   if bool_decide (names = ∅) then byprod
                   else List.filter
                          (fun s => bool_decide
                             (_norm_name (Some (name s))
                              ∈ (set_map (fun x => _norm_name (Some x)) names
                                   : gset (option string))))
                          byprod
                 | None => byprod
                 end).
  assert (Hname : sublist byname byprod
            /\ forall s, In s byname <-> In s byprod
                 /\ (forall names, station_names = Some names -> names ≠ ∅ ->
                       exists x, x ∈ names /\ lower (strip (name s)) = lower (strip x))).
  { subst byname. destruct station_names as [names|].
    - destruct (decide (names = ∅)) as [->|Hne].
      + rewrite bool_decide_eq_true_2 by done. split; [done|].
        intros s. split; [|tauto]. intros H. split; [done|].
        intros ? [= <-] ?. done.
      + rewrite (bool_decide_eq_false_2 _ Hne). split; [apply filter_sublist|].
        intros s. rewrite filter_In, bool_decide_eq_true, elem_of_map. split.
        * intros [Hin (x & Hx & Hxn)]. split; [done|].
          intros ? [= <-] _. exists x. split; [done|]. simpl in Hx. congruence.
        * intros [Hin H]. split; [done|].
          destruct (H names eq_refl Hne) as (x & Hx & Heq).
          exists x. split; [|done]. simpl. by rewrite Heq.
    - split; [done|]. intros s. split; [|tauto]. intros H. split; [done|].
      intros ? [=]. }
  clearbody byname. destruct Hname as [Hsub Hname].
  pose proof (filter_stations_by_products_sublist stations products) as Hprod.
  fold byprod in Hprod.
  destruct station_ids as [ids|].
  - destruct (decide (ids = ∅)) as [->|Hne].
    + rewrite bool_decide_eq_true_2 by done. split; [by etrans|].
      intros s. rewrite Hname. split; [|tauto]. intros [H1 H2].
      repeat split; try done. intros ? [= <-] ?. done.
    + rewrite (bool_decide_eq_false_2 _ Hne). split.
      * etrans; [apply filter_sublist|]. by etrans.
      * intros s. rewrite filter_In, bool_decide_eq_true, elem_of_map, Hname. split.
        -- intros [[H1 H2] (x & Hx & Hxi)]. repeat split; try done.
           intros ? [= <-] _. eauto.
        -- intros (H1 & H2 & H3). repeat split; try done.
           destruct (H3 ids eq_refl Hne) as (x & Hx & Heq). eauto.
  - split; [by etrans|]. intros s. rewrite Hname. split; [|tauto].
    intros [H1 H2]. repeat split; done.
Qed.

End SelectStations.

(** ** ingest.py: keeping the stations table *)

Section SyncProperties.
Import Py Departures Ingest.
Local Open Scope Z_scope.

Implicit Types (table : gmap string StationOrm) (s : Station).

Lemma assign_assign orm s1 s2 : assign (assign orm s1) s2 = assign orm s2.
Proof. reflexivity. Qed.

Lemma new_ids_snoc table seen s :
  new_ids table (seen ++ [s])
  = new_ids table seen ++ (if bool_decide (table !! id s = None) then [id s] else []).
Proof. unfold new_ids. by rewrite fmap_app, List.filter_app. Qed.

Lemma new_ids_missing table seen k : In k (new_ids table seen) -> table !! k = None.
Proof. unfold new_ids. rewrite filter_In. intros [_ H]. by apply bool_decide_eq_true in H. Qed.

Lemma sync_state_step table seen st s :
  sync_state table seen st -> sync_state table (seen ++ [s]) (sync_step st s).
Proof.
  destruct st as [sess count]. unfold sync_state. simpl.
  intros (Ht & Hdom & Hnew & Hcount & Hmap).
  rewrite new_ids_snoc, fold_left_app, length_app, Nat2Z.inj_add. simpl.
  unfold session_get.
  assert (Hfresh : table !! id s ≠ None -> (list_to_map (st_new sess) : gmap _ _) !! id s = None).
  { intros Hs. apply not_elem_of_list_to_map_1. rewrite Hnew.
    intros Hin%list_elem_of_In%new_ids_missing. done. }
  destruct (st_identity sess !! id s) as [orm|] eqn:Hid; simpl.
  - assert (Hin : is_Some (table !! id s)).
    { apply elem_of_dom, Hdom, elem_of_dom. eauto. }
    rewrite bool_decide_eq_false_2 by (by apply not_eq_None_Some).
    rewrite app_nil_r. repeat split; try done; try lia.
    + rewrite dom_insert_L. apply union_least; [|done].
      apply singleton_subseteq_l, elem_of_dom, Hin.
    + intros Hnd. rewrite <- (Hmap Hnd). unfold upsert.
      rewrite insert_union_l, insert_union_r
        by (apply Hfresh; by apply not_eq_None_Some).
      do 3 f_equal.
      rewrite !lookup_union, Hfresh by (by apply not_eq_None_Some).
      rewrite Hid. by destruct (table !! id s).
  - rewrite Ht. destruct (table !! id s) as [orm|] eqn:Htab; simpl.
    + rewrite ?bool_decide_eq_false_2 by done. simpl.
      rewrite app_nil_r. repeat split; try done; try lia.
      * rewrite dom_insert_L. apply union_least; [|done].
        apply singleton_subseteq_l, elem_of_dom. eauto.
      * intros Hnd. rewrite <- (Hmap Hnd). unfold upsert.
        rewrite insert_union_l, insert_union_r by (apply Hfresh; congruence).
        do 3 f_equal.
        rewrite !lookup_union, Hfresh by congruence.
        by rewrite Hid, Htab.
    + rewrite ?bool_decide_eq_true_2 by done. simpl.
      rewrite fmap_app. simpl. repeat split; try done; try lia.
      * by rewrite Hnew.
      * intros (Hnd & Hnotin & _)%NoDup_app.
        assert (id s ∉ (st_new sess).*1) as Hni
          by (intros Hin; apply (Hnotin _ Hin); by left).
        clear Hnotin. rewrite <- (Hmap Hnd). unfold upsert.
        rewrite list_to_map_snoc by done.
        rewrite <- !insert_union_l. do 3 f_equal.
        rewrite !lookup_union, Hid, Htab.
        by rewrite (not_elem_of_list_to_map_1 _ _ Hni).
Qed.

Lemma sync_state_fold table stations seen st :
  sync_state table seen st ->
  sync_state table (seen ++ stations) (fold_left sync_step stations st).
Proof.
  revert seen st. induction stations as [|s stations IH]; intros seen st H; simpl.
  - by rewrite app_nil_r.
  - replace (seen ++ s :: stations) with ((seen ++ [s]) ++ stations)
      by (by rewrite <- app_assoc).
    by apply IH, sync_state_step.
Qed.

Lemma sync_result table (stations : list Station) :
  sync_stations_from_cache_to_db table stations
  = if bool_decide (NoDup (new_ids table stations))
    then Some (fold_left upsert stations table, Z.of_nat (length stations))
    else None.
Proof.
  unfold sync_stations_from_cache_to_db.
  assert (H0 : sync_state table []
                 ({| st_table := table; st_identity := ∅; st_new := [] |}, 0)).
  { unfold sync_state. simpl. repeat split; try done.
    intros _. by rewrite !(left_id_L ∅ (∪)). }
  pose proof (sync_state_fold table stations [] _ H0) as H. simpl in H.
  destruct (fold_left sync_step stations _) as [sess count].
  destruct H as (Ht & Hdom & Hnew & Hcount & Hmap). simpl in *.
  unfold station_commit. rewrite Hnew.
  case_bool_decide as Hnd; simpl; [|done].
  rewrite Ht, Hcount. rewrite <- Hnew in Hnd. by rewrite (Hmap Hnd).
Qed.


Lemma last_with_cons k s stations :
  last_with k (s :: stations)
  = match last_with k stations with
    | Some s' => Some s'
    | None => if String.eqb (id s) k then Some s else None
    end.
Proof.
  unfold last_with. simpl.
  destruct (String.eqb (id s) k); [|by destruct (last _)].
  rewrite last_cons. by destruct (last _).
Qed.

Lemma fold_upsert_lookup stations table k :
  fold_left upsert stations table !! k
  = match last_with k stations with
    | Some s => Some (assign (default blank_orm (table !! k)) s)
    | None => table !! k
    end.
Proof.
  revert table. induction stations as [|s stations IH]; intros table; simpl; [done|].
  rewrite IH, last_with_cons. unfold upsert.
  destruct (String.eqb_spec (id s) k) as [->|Hne].
  - rewrite lookup_insert_eq. simpl. by destruct (last_with k stations).
  - rewrite lookup_insert_ne by done. by destruct (last_with k stations).
Qed.

Lemma last_with_is_Some k stations :
  In k (id <$> stations) -> is_Some (last_with k stations).
Proof.
  induction stations as [|s stations IH]; simpl; [done|].
  rewrite last_with_cons. intros [<-|Hin].
  - rewrite String.eqb_refl. destruct (last_with _ _); by eexists.
  - destruct (IH Hin) as [s' ->]. by eexists.
Qed.

(** X7.  After a sync that returns, the count is the length of the
    cache, and each row of an id of the cache holds the fields of the
    last station of the cache with that id and the [last_seen_at] it had
    (NULL for a new row); every other row is as it was. *)
Theorem sync_table_contents table (stations : list Station)
    (table' : gmap string StationOrm) (count : Z) :
  sync_stations_from_cache_to_db table stations = Some (table', count) ->
  count = Z.of_nat (length stations)
  /\ forall k,
       table' !! k
       = match last_with k stations with
         | Some s => Some (assign (default blank_orm (table !! k)) s)
         | None => table !! k
         end.
Proof.
  rewrite sync_result.
  case_bool_decide; [|done]. intros [= <- <-]. split; [done|].
  intros k. apply fold_upsert_lookup.
Qed.

(** X8.  A sync that returns can be repeated: the second run returns the
    same count and leaves the table of the first. *)
Theorem sync_idempotent table (stations : list Station)
    (table' : gmap string StationOrm) (count : Z) :
  sync_stations_from_cache_to_db table stations = Some (table', count) ->
  sync_stations_from_cache_to_db table' stations = Some (table', count).
Proof.
  rewrite sync_result. case_bool_decide as Hfirst; [|done]. intros [= <- <-].
  pose proof (fold_upsert_lookup stations table) as Hrows.
  set (table' := fold_left upsert stations table) in *.
  rewrite sync_result.
  assert (Hnone : new_ids table' stations = []).
  { destruct (new_ids table' stations) as [|k l] eqn:E; [done|]. exfalso.
    assert (Hin : In k (new_ids table' stations)) by (rewrite E; by left).
    pose proof (new_ids_missing _ _ _ Hin) as Hk.
    unfold new_ids in Hin. apply filter_In in Hin as [Hin _].
    rewrite Hrows in Hk.
    destruct (last_with_is_Some k stations Hin) as [s Hs]. by rewrite Hs in Hk. }
  rewrite Hnone, bool_decide_eq_true_2 by constructor.
  do 2 f_equal. apply map_eq. intros k.
  rewrite fold_upsert_lookup, !Hrows.
  by destruct (last_with k stations).
Qed.

End SyncProperties.

Section SyncExamples.
Import Py Departures Ingest Examples.
Local Open Scope Z_scope.

(** Two stations of the cache on an empty table. *)
Lemma sync_table_contents_witness :
  sync_stations_from_cache_to_db ∅ [s1; s2]
  = Some (<["s2" := assign blank_orm s2]> (<["s1" := assign blank_orm s1]> ∅), 2)
  /\ 2 = Z.of_nat (length [s1; s2])
  /\ forall k,
       (<["s2" := assign blank_orm s2]> (<["s1" := assign blank_orm s1]> ∅)
          : gmap string StationOrm) !! k
       = match last_with k [s1; s2] with
         | Some s => Some (assign (default blank_orm ((∅ : gmap string StationOrm) !! k)) s)
         | None => (∅ : gmap string StationOrm) !! k
         end.
Proof.
  split; [by vm_compute|].
  apply (sync_table_contents ∅ [s1; s2]). by vm_compute.
Defined.

(** The same cache synced again. *)
Lemma sync_idempotent_witness :
  sync_stations_from_cache_to_db ∅ [s1; s2]
  = Some (<["s2" := assign blank_orm s2]> (<["s1" := assign blank_orm s1]> ∅), 2)
  /\ sync_stations_from_cache_to_db
       (<["s2" := assign blank_orm s2]> (<["s1" := assign blank_orm s1]> ∅)) [s1; s2]
     = Some (<["s2" := assign blank_orm s2]> (<["s1" := assign blank_orm s1]> ∅), 2).
Proof.
  split; [by vm_compute|].
  apply (sync_idempotent ∅ [s1; s2]). by vm_compute.
Defined.

End SyncExamples.

(** ** ingest.py: what a batch leaves in the table *)

Section BatchProperties.
Import Py Departures Ingest.
Local Open Scope Z_scope.

Lemma commit_nothing_pending s :
  pending s = [] ->
  commit s = Some {| committed := committed s ++ in_txn s; in_txn := []; pending := [] |}.
Proof. intros Hp. unfold commit, flush. rewrite Hp. reflexivity. Qed.





Lemma insert_fold_counts ds st :
  let r := fold_left insert_one ds st in
  r.1.2 + r.2 = st.1.2 + st.2 + Z.of_nat (length ds)
  /\ st.1.2 <= r.1.2 /\ st.2 <= r.2.
Proof.
  revert st. induction ds as [|d ds IH]; intros st; simpl; [lia|].
  specialize (IH (insert_one st d)). simpl in IH.
  destruct st as [[s i] k]. unfold insert_one in IH at 2 4 6. simpl in *.
  destruct (flush (add s d)); simpl in *; lia.
Qed.

Lemma pass_state_step store seen st res :
  pass_state store seen st -> pass_state store (seen ++ [res]) (persist_step st res).
Proof.
  destruct st as [[[s n] i] k]. unfold pass_state. simpl.
  intros (Hc & Hp & Hn & Hsum & Hi & Hk).
  destruct (insert_fold_shape res.2 (s, 0, 0) Hp) as [Hc' Hp'].
  pose proof (insert_fold_counts res.2 (s, 0, 0)) as Hcnt.
  unfold insert_departures.
  destruct (fold_left insert_one res.2 (s, 0, 0)) as [[s' ins] skip].
  simpl in *.
  rewrite fmap_app, concat_app, !length_app, !Nat2Z.inj_add. simpl.
  rewrite app_nil_r.
  repeat split; try congruence; lia.
Qed.

Lemma pass_state_fold store results seen st :
  pass_state store seen st ->
  pass_state store (seen ++ results) (fold_left persist_step results st).
Proof.
  revert seen st. induction results as [|res results IH]; intros seen st H; simpl.
  - by rewrite app_nil_r.
  - replace (seen ++ res :: results) with ((seen ++ [res]) ++ results)
      by (by rewrite <- app_assoc).
    by apply IH, pass_state_step.
Qed.


(** *** The unique constraint *)

Lemma existsb_uq_false_iff d l :
  existsb (uq_departure_identity d) l = false
  <-> forall r, In r l -> uq_departure_identity d r = false.
Proof.
  induction l as [|r l IH]; simpl.
  - split; [intros _ r []|done].
  - rewrite orb_false_iff, IH. split.
    + intros [H1 H2] r' [<-|Hin]; auto.
    + intros H. split; [apply H; by left|]. intros r' Hr. apply H. by right.
Qed.

Lemma table_unique_snoc l d :
  table_unique l = true ->
  existsb (uq_departure_identity d) l = false ->
  table_unique (l ++ [d]) = true.
Proof.
  intros Hu Hd. induction l as [|r l IH]; simpl; [reflexivity|].
  simpl in Hu, Hd. apply andb_true_iff in Hu as [Hr Hu].
  apply orb_false_iff in Hd as [Hdr Hd].
  rewrite (IH Hu Hd), andb_true_r.
  rewrite existsb_app. simpl.
  apply negb_true_iff in Hr. rewrite Hr. simpl.
  by rewrite uq_departure_identity_sym, Hdr.
Qed.

Lemma table_unique_app_l l1 l2 :
  table_unique (l1 ++ l2) = true -> table_unique l1 = true.
Proof.
  induction l1 as [|r l1 IH]; simpl; [done|].
  intros [Hr Hu]%andb_true_iff. rewrite (IH Hu), andb_true_r.
  apply negb_true_iff in Hr. rewrite existsb_app in Hr.
  apply orb_false_iff in Hr as [Hr _]. by rewrite Hr.
Qed.


Lemma insert_one_keeps_unique st d :
  pending st.1.1 = [] ->
  table_unique (visible_rows st.1.1) = true ->
  table_unique (visible_rows (insert_one st d).1.1) = true.
Proof.
  destruct st as [[s i] k]. simpl. intros Hp Hu.
  unfold flush, add, visible_rows in *. simpl. rewrite Hp. simpl.
  destruct (existsb _ _) eqn:E; simpl.
  - rewrite app_nil_r. by apply table_unique_app_l in Hu.
  - rewrite app_assoc. by apply table_unique_snoc.
Qed.

Lemma insert_fold_keeps_unique ds st :
  pending st.1.1 = [] ->
  table_unique (visible_rows st.1.1) = true ->
  table_unique (visible_rows (fold_left insert_one ds st).1.1) = true.
Proof.
  revert st. induction ds as [|d ds IH]; intros st Hp Hu; simpl; [done|].
  apply IH.
  - by apply insert_one_shape.
  - by apply insert_one_keeps_unique.
Qed.

(** X11.  A table in which no two rows collide under
    [uq_departure_identity] is still such a table after a batch. *)
Theorem unique_constraint_kept (store ds table : list Departure) (inserted skipped : Z) :
  table_unique store = true ->
  insert_and_commit store ds = Some (table, inserted, skipped) ->
  table_unique table = true.
Proof.
  intros Hu. unfold insert_and_commit, insert_departures.
  pose proof (insert_fold_keeps_unique ds (open_session store, 0, 0) eq_refl) as H.
  destruct (insert_fold_shape ds (open_session store, 0, 0) eq_refl) as [_ Hp].
  destruct (fold_left insert_one ds (open_session store, 0, 0)) as [[s i] k].
  simpl in *. rewrite (commit_nothing_pending s Hp). simpl.
  intros [= <- _ _]. apply H. unfold visible_rows. simpl. by rewrite app_nil_r.
Qed.




(** *** A whole pass *)

Lemma fetched_count (g : Station -> option (string * list Departure))
    (selected : list Station) :
  length (omap (fun r => r) (g <$> selected))
  = length (List.filter (fun s => bool_decide (is_Some (g s))) selected).
Proof.
  induction selected as [|s selected IH]; [done|].
  csimpl. case_bool_decide as Hs.
  - destruct Hs as [r Hr]. rewrite Hr. simpl. by rewrite IH.
  - destruct (g s) as [r|]; [exfalso; apply Hs; by eexists|]. exact IH.
Qed.

Lemma total_length_perm (l1 l2 : list (string * list Departure)) :
  l1 ≡ₚ l2 -> length (concat l1.*2) = length (concat l2.*2).
Proof.
  induction 1 as [|x l1 l2 _ IH|x y l|l1 l2 l3 _ IH1 _ IH2]; csimpl.
  - done.
  - rewrite !length_app. by f_equal.
  - rewrite !length_app. lia.
  - congruence.
Qed.

(** X13.  A pass that returns counts as processed the selected stations
    whose fetch did not raise, whatever the order of completion; every
    departure that passed the label filter is counted once, as inserted
    or as skipped; and the table of departures only grows at its end. *)
Theorem ingest_pass_counters (db db' : database) (cache : list Station)
    (products labels station_names station_ids : option (gset string))
    (fetch : string -> option (list Departure))
    (completion : list (option (string * list Departure))
                  -> list (option (string * list Departure)))
    (processed inserted skipped : Z) :
  completes completion ->
  ingest_departures_for_products db cache products labels station_names
    station_ids fetch completion
  = Some (db', (processed, inserted, skipped)) ->
  let selected := select_stations cache products station_names station_ids in
  let futures := (fun s => _fetch_for_station (label_set labels) fetch (id s))
                   <$> selected in
  processed
  = Z.of_nat (length (List.filter (fun s => bool_decide (is_Some (fetch (id s))))
                                  selected))
  /\ inserted + skipped
     = Z.of_nat (length (concat (omap (fun r => r) futures).*2))
  /\ 0 <= inserted /\ 0 <= skipped
  /\ exists added, departures_raw db' = departures_raw db ++ added.
Proof.
  intros Hc. unfold ingest_departures_for_products.
  destruct (sync_stations_from_cache_to_db _ _) as [synced|]; [|done]. simpl.
  set (selected := select_stations cache products station_names station_ids).
  set (futures := (fun s => _fetch_for_station (label_set labels) fetch (id s))
                    <$> selected).
  assert (H0 : pass_state (departures_raw db) []
                 (open_session (departures_raw db), 0, 0, 0)).
  { unfold pass_state. simpl. repeat split; done. }
  pose proof (pass_state_fold (departures_raw db)
                (omap (fun r => r) (completion futures)) [] _ H0) as H.
  simpl in H. unfold persist_results.
  destruct (fold_left persist_step _ _) as [[[sess n] i] k].
  destruct H as (Hcm & Hp & Hn & Hsum & Hi & Hk). simpl in *.
  rewrite (commit_nothing_pending sess Hp). simpl.
  intros [= <- <- <- <-]. simpl. rewrite Hcm, Hn.
  assert (Hperm : omap (fun r => r) (completion futures)
                  ≡ₚ omap (fun r => r) futures) by (by rewrite (Hc futures)).
  repeat split; try done.
  - rewrite Hperm. subst futures. rewrite fetched_count. do 2 f_equal.
    apply List.filter_ext. intros s. unfold _fetch_for_station.
    apply bool_decide_ext. destruct (fetch (id s)); simpl.
    + split; intros _; by eexists.
    + split; intros [? ?]; done.
  - rewrite Hsum. f_equal. by apply total_length_perm.
  - by exists (in_txn sess).
Qed.

End BatchProperties.

Section BatchExamples.
Import Py Departures Ingest Examples.
Local Open Scope Z_scope.

(** A new row, then a duplicate of the committed row. *)
Lemma unique_constraint_kept_witness :
  table_unique [t17_first] = true
  /\ insert_and_commit [t17_first] [t18; t17_again] = Some ([t17_first], 1, 1)
  /\ table_unique [t17_first] = true.
Proof.
  split; [reflexivity|]. split; [reflexivity|].
  apply (unique_constraint_kept [t17_first] [t18; t17_again] [t17_first] 1 1);
    reflexivity.
Defined.


(** A pass that fetches one station of two. *)
Lemma ingest_pass_counters_witness :
  completes (fun l : list (option (string * list Departure)) => l)
  /\ ingest_departures_for_products pass_db [s1; s3] (Some {["TRAM"]}) None None None
       pass_fetch (fun l => l)
     = Some (pass_db_after, (1, 2, 0))
  /\ (let selected := select_stations [s1; s3] (Some {["TRAM"]}) None None in
      let futures := (fun s => _fetch_for_station (label_set None) pass_fetch (id s))
                       <$> selected in
      1 = Z.of_nat (length (List.filter
                              (fun s => bool_decide (is_Some (pass_fetch (id s))))
                              selected))
      /\ 2 + 0 = Z.of_nat (length (concat (omap (fun r => r) futures).*2))
      /\ 0 <= 2 /\ 0 <= 0
      /\ exists added, departures_raw pass_db_after = departures_raw pass_db ++ added).
Proof.
  split; [intros l; reflexivity|]. split; [by vm_compute|].
  apply (ingest_pass_counters pass_db pass_db_after [s1; s3] (Some {["TRAM"]})
           None None None pass_fetch (fun l => l) 1 2 0);
    [intros l; reflexivity|by vm_compute].
Defined.

End BatchExamples.

(** ** poller.py: the loop as a whole *)

Section LoopProperties.
Import Poller.
Local Open Scope Z_scope.

Variable polling_interval_seconds : Z.

Lemma round_keeps_range ev st :
  1 <= backoff st <= 60 ->
  Forall (fun d => 0 <= d) (sleeps st) ->
  1 <= backoff (round polling_interval_seconds ev st) <= 60
  /\ Forall (fun d => 0 <= d) (sleeps (round polling_interval_seconds ev st)).
Proof.
  intros Hb Hs. unfold round, attempt, sleep_time, sleep.
  destruct (pass_ok ev), (stop_before_check ev); simpl;
    (split; [lia|]); rewrite ?Forall_app, ?Forall_cons; repeat split;
    try done; try lia; try constructor.
Qed.

Lemma run_keeps_range envs st :
  1 <= backoff st <= 60 ->
  Forall (fun d => 0 <= d) (sleeps st) ->
  1 <= backoff (run polling_interval_seconds envs st) <= 60
  /\ Forall (fun d => 0 <= d) (sleeps (run polling_interval_seconds envs st)).
Proof.
  revert st. induction envs as [|ev envs IH]; intros st Hb Hs; simpl; [done|].
  destruct (stop st); [done|].
  destruct (round_keeps_range ev st Hb Hs). by apply IH.
Qed.

(** X14.  Whatever the passes do, [backoff] stays between 1 and 60 and
    [time.sleep] is never asked for a negative time. *)
Theorem poller_backoff_and_sleeps_in_range (envs : list round_env) (t : Z) :
  1 <= backoff (run_poller polling_interval_seconds envs t) <= 60
  /\ Forall (fun d => 0 <= d) (sleeps (run_poller polling_interval_seconds envs t)).
Proof. apply run_keeps_range; simpl; [lia|constructor]. Qed.

Lemma round_length ev st :
  stop_before_check ev = false ->
  now st + polling_interval_seconds <= now (round polling_interval_seconds ev st)
  /\ (pass_ok ev = true -> 0 <= pass_duration ev <= polling_interval_seconds ->
      now (round polling_interval_seconds ev st) = now st + polling_interval_seconds).
Proof.
  intros Hs. unfold round, attempt, sleep_time, sleep. rewrite Hs.
  destruct (pass_ok ev); simpl; split; try lia; intros; try lia; done.
Qed.

Lemma run_cadence envs st :
  stop st = false ->
  Forall undisturbed envs ->
  now st + polling_interval_seconds * Z.of_nat (length envs) <= now (run polling_interval_seconds envs st)
  /\ (Forall (on_time polling_interval_seconds) envs ->
      now (run polling_interval_seconds envs st)
      = now st + polling_interval_seconds * Z.of_nat (length envs)).
Proof.
  intros Hst Hall. revert st Hst.
  induction Hall as [|ev envs [H1 H2] _ IH]; intros st Hst; simpl; [lia|].
  rewrite Hst.
  assert (Hst' : stop (round polling_interval_seconds ev st) = false) by (unfold round; by rewrite H1).
  destruct (IH _ Hst') as [IH1 IH2].
  destruct (round_length ev st H1) as [Hlen Hexact].
  split; [lia|].
  intros [[Hok Hdur] Hon]%Forall_cons.
  rewrite (IH2 Hon), (Hexact Hok Hdur). lia.
Qed.

(** X15.  While no signal arrives, every round lasts at least the
    polling interval, whether its pass fails or not; when moreover every
    pass returns and takes no longer than the interval, the rounds last
    exactly the interval. *)
Theorem poller_cadence (envs : list round_env) (t : Z) :
  Forall undisturbed envs ->
  t + polling_interval_seconds * Z.of_nat (length envs)
  <= now (run_poller polling_interval_seconds envs t)
  /\ (Forall (on_time polling_interval_seconds) envs ->
      now (run_poller polling_interval_seconds envs t)
      = t + polling_interval_seconds * Z.of_nat (length envs)).
Proof. intros H. by apply (run_cadence envs (initial t)). Qed.

Lemma run_stopped envs st : stop st = true -> run polling_interval_seconds envs st = st.
Proof. intros H. destruct envs; simpl; [done|]. by rewrite H. Qed.

Lemma round_stops ev st :
  stop_before_check ev = true \/ stop_during_sleep ev = true ->
  stop (round polling_interval_seconds ev st) = true.
Proof. unfold round. intros [H|H]; destruct (stop_before_check ev); simpl; done. Qed.

(** X16.  The round during which a signal arrives is the last one: the
    rounds after it do not run; and when the signal arrives before the
    check that follows the pass, the closing sleep of that round is
    skipped. *)
Theorem poller_stops_after_signal (before after : list round_env)
    (ev : round_env) (st : state) :
  stop_before_check ev = true \/ stop_during_sleep ev = true ->
  run polling_interval_seconds (before ++ ev :: after) st = run polling_interval_seconds (before ++ [ev]) st
  /\ (stop_before_check ev = true ->
      sleeps (round polling_interval_seconds ev st) = sleeps (attempt ev st)).
Proof.
  intros Hev. split.
  - revert st. induction before as [|e before IH]; intros st; simpl.
    + destruct (stop st); [done|]. by rewrite run_stopped by (by apply round_stops).
    + destruct (stop st); [done|]. apply IH.
  - intros H. unfold round. by rewrite H.
Qed.

End LoopProperties.

Section LoopExamples.
Import Poller Examples.
Local Open Scope Z_scope.

(** A pass that returns and one that raises, every 60 time units. *)
Lemma poller_cadence_witness :
  Forall undisturbed [passing_pass; failing_pass]
  /\ 0 + 60 * Z.of_nat (length [passing_pass; failing_pass])
     <= now (run_poller 60 [passing_pass; failing_pass] 0)
  /\ (Forall (on_time 60) [passing_pass; failing_pass] ->
      now (run_poller 60 [passing_pass; failing_pass] 0)
      = 0 + 60 * Z.of_nat (length [passing_pass; failing_pass])).
Proof.
  assert (H : Forall undisturbed [passing_pass; failing_pass])
    by (repeat constructor).
  split; [exact H|].
  exact (poller_cadence 60 [passing_pass; failing_pass] 0 H).
Defined.

(** A signal during the second pass of three. *)
Lemma poller_stops_after_signal_witness :
  (stop_before_check interrupted_pass = true \/ stop_during_sleep interrupted_pass = true)
  /\ run 60 ([passing_pass] ++ interrupted_pass :: [failing_pass]) (initial 0)
     = run 60 ([passing_pass] ++ [interrupted_pass]) (initial 0)
  /\ (stop_before_check interrupted_pass = true ->
      sleeps (round 60 interrupted_pass (initial 0))
      = sleeps (attempt interrupted_pass (initial 0))).
Proof.
  split; [left; reflexivity|].
  apply (poller_stops_after_signal 60 [passing_pass] [failing_pass] interrupted_pass
           (initial 0)).
  left. reflexivity.
Defined.

End LoopExamples.

(** ** gtfs_index.py: the canonical key *)

Section CanonicalKey.
Import Py GtfsIndex.

Implicit Types (sep c : ascii) (s x y p : string).

Lemma split_nonempty sep s : split sep s ≠ [].
Proof.
  destruct s as [|c s]; simpl; [done|].
  destruct (Ascii.eqb c sep); [done|]. by destruct (split sep s).
Qed.

Lemma split_cons_other sep c s h t :
  Ascii.eqb c sep = false -> split sep s = h :: t ->
  split sep (String c s) = String c h :: t.
Proof. intros Hc Hs. simpl. by rewrite Hc, Hs. Qed.

Lemma split_app sep x y :
  split sep (x +:+ String sep y) = split sep x ++ split sep y.
Proof.
  induction x as [|c x IH]; simpl.
  - by rewrite Ascii.eqb_refl.
  - destruct (Ascii.eqb c sep) eqn:Hc.
    + by rewrite IH.
    + rewrite IH.
      destruct (split sep x) as [|h t] eqn:E; [by apply split_nonempty in E|].
      reflexivity.
Qed.

(** A part of a split holds no separator: splitting it gives it back. *)
Lemma split_part_atomic sep s p : In p (split sep s) -> split sep p = [p].
Proof.
  revert p. induction s as [|c s IH]; intros p; simpl.
  - intros [<-|[]]. reflexivity.
  - destruct (Ascii.eqb c sep) eqn:Hc.
    + intros [<-|Hin]; [reflexivity|by apply IH].
    + destruct (split sep s) as [|h t] eqn:E; [by apply split_nonempty in E|].
      intros [<-|Hin].
      * apply split_cons_other; [done|]. apply IH. by left.
      * apply IH. by right.
Qed.

Lemma append_assoc (a b c : string) : (a +:+ b) +:+ c = a +:+ b +:+ c.
Proof.
  induction a as [|ch a IH]; [reflexivity|].
  change (String ch ((a +:+ b) +:+ c) = String ch (a +:+ b +:+ c)).
  by rewrite IH.
Qed.

Lemma join_fold (j : string) (t : list string) (a b : string) :
  fold_left (fun acc p => String.append (String.append acc j) p) t (a +:+ b)
  = a +:+ fold_left (fun acc p => String.append (String.append acc j) p) t b.
Proof.
  revert b. induction t as [|p t IH]; intros b; simpl; [done|].
  rewrite <- IH. f_equal. by rewrite !append_assoc.
Qed.

Lemma join_cons (j h h2 : string) (t : list string) :
  join j (h :: h2 :: t) = h +:+ j +:+ join j (h2 :: t).
Proof.
  unfold join. simpl.
  change (String.append (String.append h j) h2) with ((h +:+ j) +:+ h2).
  rewrite join_fold, append_assoc. reflexivity.
Qed.

(** [sep.join(s.split(sep)) == s]. *)
Lemma join_split sep s : join (String sep EmptyString) (split sep s) = s.
Proof.
  induction s as [|c s IH]; simpl; [done|].
  destruct (split sep s) as [|h t] eqn:E; [by apply split_nonempty in E|].
  destruct (Ascii.eqb_spec c sep) as [->|Hc].
  - rewrite join_cons, IH. reflexivity.
  - destruct t as [|h2 t].
    + unfold join in *. simpl in *. by rewrite IH.
    + rewrite join_cons. rewrite join_cons in IH. simpl. by rewrite <- IH.
Qed.

Lemma split_join3 sep p1 p2 p3 :
  split sep p1 = [p1] -> split sep p2 = [p2] -> split sep p3 = [p3] ->
  split sep (join (String sep EmptyString) [p1; p2; p3]) = [p1; p2; p3].
Proof.
  intros H1 H2 H3. rewrite !join_cons.
  change (p1 +:+ String sep EmptyString +:+ p2 +:+ String sep EmptyString +:+ join (String sep EmptyString) [p3])
    with (p1 +:+ String sep (p2 +:+ String sep p3)).
  by rewrite !split_app, H1, H2, H3.
Qed.

(** X17.  [base3] is idempotent, and its result has as many segments
    between colons as its argument, up to three. *)
Theorem base3_idempotent (x : string) :
  base3 (base3 x) = base3 x
  /\ length (split ":" (base3 x)) = Nat.min 3 (length (split ":" x)).
Proof.
  unfold base3 at 2 3 4.
  destruct (Nat.leb_spec 3 (length (split ":" x))) as [Hlen|Hlen].
  - destruct (split ":" x) as [|p1 [|p2 [|p3 rest]]] eqn:E; simpl in Hlen; try lia.
    assert (Ht : take 3 (p1 :: p2 :: p3 :: rest) = [p1; p2; p3])
      by (simpl; by rewrite take_0).
    rewrite Ht.
    assert (Hsplit : split ":" (join ":" [p1; p2; p3]) = [p1; p2; p3]).
    { apply split_join3.
      - apply (split_part_atomic ":" x). rewrite E. simpl. auto.
      - apply (split_part_atomic ":" x). rewrite E. simpl. auto.
      - apply (split_part_atomic ":" x). rewrite E. simpl. auto. }
    split.
    + unfold base3. rewrite Hsplit. reflexivity.
    + rewrite Hsplit. simpl. lia.
  - split.
    + unfold base3. by rewrite (proj2 (Nat.leb_gt _ _) Hlen).
    + lia.
Qed.

(** X18.  An id of three segments or more keeps its [base3] when a colon
    and any text are appended: the ids of the platforms of a station
    share the key of the station. *)
Theorem base3_ignores_suffix (x y : string) :
  3 <= length (split ":" x) ->
  base3 (x +:+ ":" +:+ y) = base3 x.
Proof.
  intros Hlen. unfold base3.
  change (x +:+ ":" +:+ y) with (x +:+ String ":" y).
  rewrite split_app, length_app.
  rewrite (proj2 (Nat.leb_le _ _) Hlen).
  rewrite (proj2 (Nat.leb_le 3 _)) by lia.
  by rewrite take_app_le by lia.
Qed.

End CanonicalKey.

Section CanonicalKeyExamples.
Import Py GtfsIndex.

(** A station id and the id of one of its platforms. *)
Lemma base3_ignores_suffix_witness :
  3 <= length (split ":" "de:09162:6")
  /\ base3 ("de:09162:6" +:+ ":" +:+ "1:2") = base3 "de:09162:6".
Proof.
  split; [vm_compute; lia|].
  apply (base3_ignores_suffix "de:09162:6" "1:2"). vm_compute. lia.
Defined.

End CanonicalKeyExamples.

(** ** gtfs_index.py: what the index holds *)

Section IndexContents.
Import Py GtfsIndex.

Implicit Types (enum : site -> string -> gset string -> list string).
Implicit Types (m : mapping_t) (r : row) (rs : list row) (rid : string).

Lemma nonempty_spec (v : option string) (s : string) :
  nonempty v = Some s <-> v = Some s /\ s ≠ EmptyString.
Proof.
  destruct v as [[|c v]|]; simpl; (split; [intros H|intros [H H']]);
    simplify_eq; done.
Qed.

(** *** Ordered dictionaries *)

Lemma od_set_keys {V} (d : odict V) k v :
  (od_set d k v).*1 = if bool_decide (k ∈ d.*1) then d.*1 else d.*1 ++ [k].
Proof.
  induction d as [|[k0 v0] d IH]; csimpl; [done|].
  destruct (String.eqb_spec k k0) as [->|Hne]; csimpl.
  - by rewrite bool_decide_eq_true_2 by (by left).
  - rewrite IH. case_bool_decide as H1; case_bool_decide as H2; try done.
    + exfalso. apply H2. by right.
    + exfalso. apply elem_of_cons in H2 as [?|?]; done.
Qed.

Lemma od_set_NoDup {V} (d : odict V) k v : NoDup d.*1 -> NoDup (od_set d k v).*1.
Proof.
  intros Hd. rewrite od_set_keys. case_bool_decide as H; [done|].
  apply NoDup_app. split; [done|]. split; [|apply NoDup_singleton].
  intros x Hx ->%list_elem_of_singleton. done.
Qed.

Lemma od_set_fresh {V} (d : odict V) k v : k ∉ d.*1 -> od_set d k v = d ++ [(k, v)].
Proof.
  induction d as [|[k0 v0] d IH]; csimpl; [done|].
  intros [Hne Hni]%not_elem_of_cons.
  rewrite (proj2 (String.eqb_neq k k0) Hne). by rewrite IH.
Qed.

Lemma od_get_In {V} (d : odict V) k v :
  NoDup d.*1 -> (od_get d k = Some v <-> In (k, v) d).
Proof.
  induction d as [|[k0 v0] d IH]; csimpl; [naive_solver|].
  intros [Hni Hnd]%NoDup_cons.
  destruct (String.eqb_spec k k0) as [->|Hne].
  - split; [intros [= ->]; by left|].
    intros [[= ->]|Hin]; [done|]. exfalso. apply Hni.
    apply list_elem_of_fmap. exists (k0, v). split; [done|]. by apply list_elem_of_In.
  - rewrite (IH Hnd). split; [by right|]. intros [[= -> ->]|Hin]; done.
Qed.

Lemma od_get_None {V} (d : odict V) k : od_get d k = None <-> k ∉ d.*1.
Proof.
  induction d as [|[k0 v0] d IH]; csimpl.
  - split; [intros _; apply not_elem_of_nil|done].
  - destruct (String.eqb_spec k k0) as [->|Hne].
    + split; [done|]. intros H. exfalso. apply H. by left.
    + rewrite IH, not_elem_of_cons. tauto.
Qed.

(** *** The lists of the mapping *)

Lemma index_ids_store enum w rid0 m b l sel b' l' x :
  enumerates enum ->
  x ∈ index_ids (store enum w rid0 m b l sel) b' l' <->
  x ∈ index_ids m b' l' \/ (b' = b /\ l' = l /\ x ∈ sel).
Proof.
  intros He. unfold store, index_ids. rewrite od_get_set.
  destruct (String.eqb_spec b' b) as [->|Hb]; simpl.
  - rewrite od_get_set. destruct (String.eqb_spec l' l) as [->|Hl]; simpl.
    + unfold sorted. rewrite merge_sort_Permutation, (He w rid0 _), elem_of_elements,
        elem_of_union, elem_of_list_to_set. tauto.
    + tauto.
  - tauto.
Qed.

Lemma index_ids_step enum rs rp sl sbm m item b l x :
  enumerates enum ->
  x ∈ index_ids (index_step enum rs rp sl sbm m item) b l <->
  x ∈ index_ids m b l \/ x ∈ contribution enum rs rp sl sbm b l item.
Proof.
  intros He. destruct item as [rid sids]. unfold index_step, contribution.
  cbn [fst snd].
  destruct (find_route rs rid) as [r|]; [|rewrite elem_of_empty; tauto].
  destruct (nonempty (Some (route_label r))) as [lab|];
    [|rewrite elem_of_empty; tauto].
  destruct (nonempty (rp !! rid)) as [prod|]; [|rewrite elem_of_empty; tauto].
  rewrite !index_ids_store by done. fold (selected_ids enum sl sbm rid sids).
  case_bool_decide as Hc.
  - destruct Hc as [-> [->| ->]]; tauto.
  - rewrite elem_of_empty. split; [|tauto].
    intros [[H|(-> & -> & H)]|(-> & -> & H)]; [tauto| |]; exfalso; apply Hc; tauto.
Qed.

Lemma index_ids_fold enum rs rp sl sbm items m b l x :
  enumerates enum ->
  x ∈ index_ids (fold_left (index_step enum rs rp sl sbm) items m) b l <->
  x ∈ index_ids m b l
  \/ exists item, In item items /\ x ∈ contribution enum rs rp sl sbm b l item.
Proof.
  intros He. revert m. induction items as [|item items IH]; intros m; simpl.
  - split; [tauto|]. intros [H|(item & [] & _)]. done.
  - rewrite IH, index_ids_step by done. split.
    + intros [[H|H]|(it & Hin & H)]; [tauto| |]; right; eauto.
    + intros [H|(it & [<-|Hin] & H)]; [tauto|tauto|]. right; eauto.
Qed.

(** *** The intermediate tables *)

Lemma base3_step_elem sl sid k :
  k ∈ base3_step sl ∅ sid <->
  exists sinfo, sl !! sid = Some sinfo /\ sinfo ≠ ∅ /\ k = stop_key sinfo sid.
Proof.
  unfold base3_step, stop_key. destruct (sl !! sid) as [sinfo|].
  - case_bool_decide as He.
    + rewrite elem_of_empty. split; [done|]. intros (si & [= <-] & Hne & _). done.
    + rewrite (right_id_L ∅ (∪)), elem_of_singleton. split.
      * intros ->. by exists sinfo.
      * by intros (si & [= <-] & _ & ->).
  - rewrite elem_of_empty. split; [done|]. by intros (si & [=] & _).
Qed.

Lemma base3_fold_elem sl (l : list string) k :
  k ∈ fold_left (base3_step sl) l ∅ <->
  exists sid sinfo,
    sid ∈ l /\ sl !! sid = Some sinfo /\ sinfo ≠ ∅ /\ k = stop_key sinfo sid.
Proof.
  rewrite (fold_left_ext_in _ (fun a y => a ∪ base3_step sl ∅ y))
    by (intros; apply base3_step_union).
  rewrite fold_union_elem, elem_of_empty. setoid_rewrite base3_step_elem.
  split.
  - intros [[]|(sid & Hin & si & H)]. by exists sid, si.
  - intros (sid & si & Hin & H). right. exists sid. split; [done|]. by exists si.
Qed.

Lemma selected_ids_elem enum sl sbm rid (sids : gset string) x :
  enumerates enum ->
  x ∈ selected_ids enum sl sbm rid sids <->
  exists sid sinfo,
    sid ∈ sids /\ sl !! sid = Some sinfo /\ sinfo ≠ ∅
    /\ x ∈ default ∅ (sbm !! stop_key sinfo sid).
Proof.
  intros He. unfold selected_ids.
  rewrite fold_union_elem, elem_of_empty. split.
  - intros [[]|(k & Hk & Hx)].
    rewrite (He EKeys rid _), elem_of_elements, base3_fold_elem in Hk.
    destruct Hk as (sid & si & Hin & Hsl & Hne & ->).
    rewrite (He EStops rid _), elem_of_elements in Hin. by exists sid, si.
  - intros (sid & si & Hin & Hsl & Hne & Hx). right.
    exists (stop_key si sid). split; [|done].
    rewrite (He EKeys rid _), elem_of_elements, base3_fold_elem.
    exists sid, si. by rewrite (He EStops rid _), elem_of_elements.
Qed.

Lemma all_stops_elem enum ts rid (tids : gset string) sid :
  enumerates enum ->
  sid ∈ all_stops enum ts rid tids <->
  exists tid, tid ∈ tids /\ sid ∈ default ∅ (ts !! tid).
Proof.
  intros He. unfold all_stops. rewrite fold_union_elem, elem_of_empty.
  setoid_rewrite (He ETrips rid _). setoid_rewrite elem_of_elements.
  split; [by intros [[]|H]|by right].
Qed.

Lemma stop_times_elem (sts : list row) acc tid sid :
  sid ∈ default ∅ (fold_left stop_time_step sts acc !! tid) <->
  sid ∈ default ∅ (acc !! tid)
  \/ exists st, In st sts /\ nonempty (st !! "trip_id") = Some tid
               /\ nonempty (st !! "stop_id") = Some sid.
Proof.
  revert acc. induction sts as [|st sts IH]; intros acc; simpl.
  - split; [tauto|]. by intros [H|(st & [] & _)].
  - rewrite IH. unfold stop_time_step at 1.
    destruct (nonempty (st !! "trip_id")) as [t0|] eqn:Ht.
    + destruct (nonempty (st !! "stop_id")) as [s0|] eqn:Hs.
      * destruct (decide (tid = t0)) as [->|Hne].
        -- rewrite lookup_insert_eq. simpl. rewrite elem_of_union, elem_of_singleton.
           split.
           ++ intros [[->|H]|(st' & Hin & H)]; [|tauto|]; right.
              ** exists st. by rewrite Ht, Hs; auto.
              ** exists st'. tauto.
           ++ intros [H|(st' & [<-|Hin] & H1 & H2)]; [tauto| |].
              ** rewrite Hs in H2. injection H2 as ->. tauto.
              ** right. by exists st'.
        -- rewrite lookup_insert_ne by done. split.
           ++ intros [H|(st' & Hin & H)]; [tauto|]. right. exists st'. tauto.
           ++ intros [H|(st' & [<-|Hin] & H1 & H2)]; [tauto| |].
              ** rewrite Ht in H1. by injection H1 as ->.
              ** right. by exists st'.
      * split.
        -- intros [H|(st' & Hin & H)]; [tauto|]. right. exists st'. tauto.
        -- intros [H|(st' & [<-|Hin] & H1 & H2)]; [tauto| |].
           ++ by rewrite Hs in H2.
           ++ right. by exists st'.
    + split.
      * intros [H|(st' & Hin & H)]; [tauto|]. right. exists st'. tauto.
      * intros [H|(st' & [<-|Hin] & H1 & H2)]; [tauto| |].
        -- by rewrite Ht in H1.
        -- right. by exists st'.
Qed.

Lemma station_elem (stations : list Ingest.Station) acc k x :
  x ∈ default ∅ (fold_left station_step stations acc !! k) <->
  x ∈ default ∅ (acc !! k)
  \/ exists s, In s stations /\ Ingest.id s = x /\ base3 x = k.
Proof.
  revert acc. induction stations as [|s stations IH]; intros acc; simpl.
  - split; [tauto|]. by intros [H|(s & [] & _)].
  - rewrite IH. unfold station_step at 1.
    destruct (decide (k = base3 (Ingest.id s))) as [->|Hne].
    + rewrite lookup_insert_eq. simpl. rewrite elem_of_union, elem_of_singleton.
      split.
      * intros [[->|H]|(s' & Hin & H)]; [|tauto|]; right; [by exists s; auto|].
        exists s'. tauto.
      * intros [H|(s' & [<-|Hin] & H1 & H2)]; [tauto|auto|]. right. by exists s'.
    + rewrite lookup_insert_ne by done. split.
      * intros [H|(s' & Hin & H)]; [tauto|]. right. exists s'. tauto.
      * intros [H|(s' & [<-|Hin] & H1 & H2)]; [tauto| |].
        -- subst x. done.
        -- right. by exists s'.
Qed.

Lemma stop_lookup_rows (ss : list row) (acc : gmap string row) :
  (forall sid si, acc !! sid = Some si -> nonempty (si !! "stop_id") = Some sid) ->
  forall sid si,
    fold_left stop_lookup_step ss acc !! sid = Some si ->
    nonempty (si !! "stop_id") = Some sid.
Proof.
  revert acc. induction ss as [|s ss IH]; intros acc Hacc; simpl; [done|].
  apply IH. intros sid si. unfold stop_lookup_step.
  destruct (nonempty (s !! "stop_id")) as [s0|] eqn:Hs; [|apply Hacc].
  destruct (decide (sid = s0)) as [->|Hne].
  - rewrite lookup_insert_eq. by intros [= <-].
  - rewrite lookup_insert_ne by done. apply Hacc.
Qed.

Lemma stop_lookup_nonempty (ss : list row) sid si :
  fold_left stop_lookup_step ss ∅ !! sid = Some si -> si ≠ ∅.
Proof.
  intros H%stop_lookup_rows; [|by intros ? ?; rewrite lookup_empty].
  intros ->. by rewrite lookup_empty in H.
Qed.

Lemma od_members_add (d : odict (gset string)) k x k' y :
  y ∈ od_members (od_add d k x) k' <->
  y ∈ od_members d k' \/ (k' = k /\ y = x).
Proof.
  unfold od_members, od_add. rewrite od_get_set.
  destruct (String.eqb_spec k' k) as [->|Hne]; simpl.
  - rewrite elem_of_union, elem_of_singleton. tauto.
  - tauto.
Qed.

Lemma trips_elem ids (ts : list row) acc rid tid :
  tid ∈ od_members (fold_left (trip_step ids) ts acc) rid <->
  tid ∈ od_members acc rid
  \/ (rid ∈ ids
      /\ exists t, In t ts /\ t !! "route_id" = Some rid
                  /\ nonempty (t !! "trip_id") = Some tid).
Proof.
  revert acc. induction ts as [|t ts IH]; intros acc; simpl.
  - split; [tauto|]. by intros [H|(_ & t & [] & _)].
  - rewrite IH. clear IH. split.
    + intros [H|(Hi & t' & Hin & H)]; [|right; split; [done|]; exists t'; tauto].
      revert H. unfold trip_step.
      destruct (t !! "route_id") as [r0|] eqn:Hr; [|tauto].
      case_bool_decide as Hin; [|tauto].
      destruct (nonempty (t !! "trip_id")) as [t0|] eqn:Ht; [|tauto].
      rewrite od_members_add. intros [H|[-> ->]]; [tauto|].
      right. split; [done|]. exists t. auto.
    + intros [H|(Hi & t' & [<-|Hin] & H1 & H2)].
      * left. unfold trip_step.
        destruct (t !! "route_id") as [r0|]; [|done].
        case_bool_decide; [|done].
        destruct (nonempty (t !! "trip_id")); [|done].
        rewrite od_members_add. tauto.
      * left. unfold trip_step. rewrite H1, bool_decide_eq_true_2, H2 by done.
        rewrite od_members_add. tauto.
      * right. split; [done|]. by exists t'.
Qed.

Lemma trips_NoDup ids (ts : list row) acc :
  NoDup acc.*1 -> NoDup (fold_left (trip_step ids) ts acc).*1.
Proof.
  revert acc. induction ts as [|t ts IH]; intros acc Hacc; simpl; [done|].
  apply IH. unfold trip_step.
  destruct (t !! "route_id") as [r0|]; [|done].
  case_bool_decide; [|done].
  destruct (nonempty (t !! "trip_id")); [|done].
  by apply od_set_NoDup.
Qed.

Lemma route_stops_map enum ts (rt acc : odict (gset string)) :
  NoDup (acc.*1 ++ rt.*1) ->
  fold_left (route_stops_step enum ts) rt acc
  = acc ++ map (fun it => (it.1, all_stops enum ts it.1 it.2)) rt.
Proof.
  revert acc. induction rt as [|[rid tids] rt IH]; intros acc Hnd; simpl.
  - by rewrite app_nil_r.
  - fold (all_stops enum ts rid tids). csimpl in Hnd.
    rewrite od_set_fresh.
    + rewrite IH; [by rewrite <- app_assoc|].
      rewrite fmap_app. csimpl. by rewrite <- app_assoc.
    + apply NoDup_app in Hnd as (_ & Hd & _). intros Hin. apply (Hd _ Hin). by left.
Qed.

Lemma select_routes_dom products labels (rs : list row) acc :
  dom acc.2 ⊆ acc.1 ->
  dom (fold_left (route_step products labels) rs acc).2
  ⊆ (fold_left (route_step products labels) rs acc).1.
Proof.
  revert acc. induction rs as [|r rs IH]; intros acc Hacc; simpl; [done|].
  apply IH. unfold route_step.
  destruct (product_excluded _ _); [done|].
  destruct (label_excluded _ _); [done|].
  destruct (nonempty (r !! "route_id")) as [rid|]; [|done]. simpl.
  destruct (nonempty (route_type_product r)).
  - rewrite dom_insert. intros x [Hx|Hx]%elem_of_union; apply elem_of_union; auto.
  - intros x Hx. apply elem_of_union. auto.
Qed.

Lemma route_type_product_values r p :
  route_type_product r = Some p -> In p ["TRAM"; "UBAHN"; "SBAHN"; "BUS"].
Proof.
  unfold route_type_product, ROUTE_TYPE_TO_PRODUCT.
  intros H%elem_of_list_to_map_2. apply list_elem_of_In in H. simpl in H.
  simpl. intuition congruence.
Qed.

Lemma route_type_product_nonempty r p :
  route_type_product r = Some p -> nonempty (Some p) = Some p.
Proof.
  intros H%route_type_product_values. simpl in H.
  destruct H as [<-|[<-|[<-|[<-|[]]]]]; reflexivity.
Qed.

Lemma route_step_product products labels acc r rid :
  (route_step products labels acc r).2 !! rid
  = match route_type_product r with
    | Some p =>
      if passes products labels r
         && bool_decide (nonempty (r !! "route_id") = Some rid)
      then Some p else acc.2 !! rid
    | None => acc.2 !! rid
    end.
Proof.
  unfold route_step, passes.
  destruct (route_type_product r) as [p|] eqn:Hp.
  - destruct (product_excluded _ _); [done|].
    destruct (label_excluded _ _); [done|]. cbn [negb andb].
    destruct (nonempty (r !! "route_id")) as [rid'|]; [|done]. cbn [fst snd].
    rewrite (route_type_product_nonempty r p Hp).
    case_bool_decide as Hc.
    + injection Hc as ->. by rewrite lookup_insert_eq.
    + rewrite lookup_insert_ne; [done|]. by intros ->.
  - destruct (product_excluded _ _); [done|].
    destruct (label_excluded _ _); [done|].
    by destruct (nonempty (r !! "route_id")).
Qed.

Lemma select_routes_product_last products labels (rs : list row) acc rid :
  (fold_left (route_step products labels) rs acc).2 !! rid
  = match selected_product products labels rs rid with
    | Some p => Some p
    | None => acc.2 !! rid
    end.
Proof.
  revert acc. induction rs as [|r rs IH]; intros acc; [done|].
  cbn [fold_left]. rewrite IH, route_step_product. unfold selected_product. csimpl.
  destruct (route_type_product r) as [p|] eqn:Hp.
  - destruct (passes products labels r && bool_decide _); csimpl.
    + rewrite last_cons. by destruct (last _).
    + done.
  - by destruct (passes products labels r && bool_decide _).
Qed.

Lemma select_routes_product_from products labels (rs : list row) acc rid p :
  (fold_left (route_step products labels) rs acc).2 !! rid = Some p ->
  acc.2 !! rid = Some p \/ exists r, In r rs /\ selects products labels r rid p.
Proof.
  revert acc. induction rs as [|r rs IH]; intros acc; simpl; [tauto|].
  intros [H|(r' & Hin & H)]%IH; [|right; exists r'; tauto].
  rewrite route_step_product in H.
  destruct (route_type_product r) as [p'|] eqn:Hp; [|tauto].
  destruct (passes products labels r) eqn:Hpass; simpl in H; [|tauto].
  case_bool_decide as Hrid; [|tauto].
  injection H as ->. right. exists r. split; [by left|]. done.
Qed.

Lemma select_routes_product_unique products labels (rs : list row) acc rid p :
  (forall r' p', In r' rs -> selects products labels r' rid p' -> p' = p) ->
  acc.2 !! rid = Some p \/ (exists r, In r rs /\ selects products labels r rid p) ->
  (fold_left (route_step products labels) rs acc).2 !! rid = Some p.
Proof.
  revert acc. induction rs as [|r rs IH]; intros acc Hu H; simpl.
  - destruct H as [H|(r & [] & _)]. done.
  - apply IH; [intros r' p' Hin; apply Hu; by right|].
    rewrite route_step_product.
    destruct H as [H|(r' & [<-|Hin] & H)].
    + left. destruct (route_type_product r) as [p'|] eqn:Hp; [|done].
      destruct (passes products labels r) eqn:Hpass; simpl; [|done].
      case_bool_decide as Hrid; [|done].
      f_equal. apply (Hu r p'); [by left|done].
    + left. destruct H as (Hpass & Hrid & Hp).
      by rewrite Hp, Hpass, bool_decide_eq_true_2.
    + right. by exists r'.
Qed.

Lemma select_routes_selects products labels (rs : list row) rid p :
  (select_routes products labels rs).2 !! rid = Some p ->
  exists r, In r rs /\ selects products labels r rid p.
Proof.
  intros [H|H]%select_routes_product_from; [|done].
  cbn [snd] in H. by rewrite lookup_empty in H.
Qed.

Lemma find_route_distinct (rs : list row) r rid :
  distinct_route_ids rs ->
  In r rs -> r !! "route_id" = Some rid -> find_route rs rid = Some r.
Proof.
  intros Hd Hin Hr. unfold find_route.
  destruct (List.find _ rs) as [r'|] eqn:Hf.
  - apply find_some in Hf as [Hin' Hr']. apply bool_decide_eq_true_1 in Hr'.
    f_equal. by apply (Hd r' r rid).
  - apply (find_none _ _ Hf) in Hin. by rewrite bool_decide_eq_true_2 in Hin.
Qed.

Lemma index_ids_elem enum f products labels stations bucket label x :
  enumerates enum ->
  x ∈ index_ids (build_label_index enum f products labels stations) bucket label
  <->
  exists rid r prod,
    (select_routes (norm_products products) (norm_labels labels) (routes f)).2 !! rid
      = Some prod
    /\ (bucket = prod \/ bucket = "ALL")
    /\ find_route (routes f) rid = Some r
    /\ route_label r = label /\ label ≠ EmptyString
    /\ reaches f stations rid x.
Proof.
  intros He. unfold build_label_index.
  pose proof (select_routes_dom (norm_products products) (norm_labels labels)
                (routes f) (∅, ∅)) as Hdom.
  pose proof (select_routes_product_from (norm_products products) (norm_labels labels)
                (routes f) (∅, ∅)) as Hfrom.
  fold (select_routes (norm_products products) (norm_labels labels) (routes f))
    in Hdom, Hfrom.
  destruct (select_routes _ _ _) as [ids rp]. cbn [fst snd] in *.
  assert (Hval : forall rid p, rp !! rid = Some p -> nonempty (Some p) = Some p).
  { intros rid p [H|(r & _ & _ & _ & H)]%Hfrom; [by rewrite lookup_empty in H|].
    by eapply route_type_product_nonempty. }
  clear Hfrom.
  assert (Hsub : dom rp ⊆ ids) by (apply Hdom; by rewrite dom_empty_L).
  clear Hdom.
  set (rt := fold_left (trip_step ids) (trips f) []).
  assert (Hnd : NoDup rt.*1) by (apply trips_NoDup; constructor).
  rewrite route_stops_map by done. simpl app.
  rewrite index_ids_fold by done.
  split.
  - intros [H|(item & Hin & Hx)]; [by apply elem_of_nil in H|].
    apply in_map_iff in Hin as ([rid tids] & <- & Hin). cbn [fst snd] in Hx.
    unfold contribution in Hx. cbn [fst snd] in Hx.
    destruct (find_route (routes f) rid) as [r|] eqn:Hr; [|by apply elem_of_empty in Hx].
    destruct (nonempty (Some (route_label r))) as [l|] eqn:Hl;
      [|by apply elem_of_empty in Hx].
    destruct (nonempty (rp !! rid)) as [prod|] eqn:Hp; [|by apply elem_of_empty in Hx].
    case_bool_decide as Hc; [|by apply elem_of_empty in Hx].
    destruct Hc as [-> Hb].
    apply nonempty_spec in Hl as [[= Hl] Hne]. apply nonempty_spec in Hp as [Hp Hpne].
    apply selected_ids_elem in Hx as (sid & si & Hsid & Hsl & _ & Hx); [|done].
    apply all_stops_elem in Hsid as (tid & Htid & Hsid); [|done].
    apply stop_times_elem in Hsid as [Hsid|(st & Hst & Hst1 & Hst2)];
      [by rewrite lookup_empty in Hsid|].
    apply od_get_In in Hin; [|done].
    assert (Ht : tid ∈ od_members rt rid) by (unfold od_members; by rewrite Hin).
    apply trips_elem in Ht as [Ht|(_ & t & Ht & Ht1 & Ht2)];
      [by apply elem_of_empty in Ht|].
    apply station_elem in Hx as [Hx|(s & Hs & Hs1 & Hs2)];
      [by rewrite lookup_empty in Hx|].
    exists rid, r, prod. repeat split; try done.
    exists sid, si, s. repeat split; try done.
    by exists t, tid, st.
  - intros (rid & r & prod & Hp & Hb & Hr & Hl & Hne
            & sid & si & s & (t & tid & st & Ht & Ht1 & Ht2 & Hst & Hst1 & Hst2)
            & Hsl & Hs & Hs1 & Hs2).
    right.
    assert (Hrid : rid ∈ ids) by (apply Hsub, elem_of_dom; by eexists).
    assert (Htid : tid ∈ od_members rt rid).
    { apply trips_elem. right. split; [done|]. by exists t. }
    unfold od_members in Htid.
    destruct (od_get rt rid) as [tids|] eqn:Hget; [|by apply elem_of_empty in Htid].
    simpl in Htid. apply od_get_In in Hget; [|done].
    exists (rid, all_stops enum (fold_left stop_time_step (stop_times f) ∅) rid tids).
    split; [by apply in_map_iff; exists (rid, tids)|].
    unfold contribution. cbn [fst snd]. rewrite Hr, Hl, Hp.
    rewrite (proj2 (nonempty_spec (Some label) label)) by done.
    rewrite (Hval rid prod Hp).
    rewrite bool_decide_eq_true_2 by done.
    apply selected_ids_elem; [done|]. exists sid, si.
    split; [|split; [done|split; [by eapply stop_lookup_nonempty|]]].
    + apply all_stops_elem; [done|]. exists tid. split; [done|].
      apply stop_times_elem. right. by exists st.
    + apply station_elem. right. by exists s.
Qed.

Lemma selected_row_is_found products labels (rs : list row) r r' rid p :
  distinct_route_ids rs ->
  In r' rs -> selects products labels r' rid p ->
  find_route rs rid = Some r -> r' = r.
Proof.
  intros Hd Hin (_ & [Hrid _]%nonempty_spec & _) Hf.
  pose proof (find_route_distinct _ _ _ Hd Hin Hrid). congruence.
Qed.

Lemma index_ids_in_all enum f products labels stations bucket label x :
  enumerates enum ->
  x ∈ index_ids (build_label_index enum f products labels stations) bucket label ->
  x ∈ index_ids (build_label_index enum f products labels stations) "ALL" label.
Proof.
  intros He (rid & r & prod & Hp & Hb & H)%index_ids_elem; [|done].
  apply index_ids_elem; [done|]. exists rid, r, prod. tauto.
Qed.

(** X19.  A station id is listed under a bucket and a label exactly when a
    selected route with that label, whose product is the bucket unless
    the bucket is [ALL], has a trip stopping at a stop whose key is the
    [base3] of the station id.  The label is read from the first row of
    [routes.txt] with the route id, whether selected or not, the product
    from the last selected one. *)
Theorem index_ids_characterized enum f products labels stations bucket label x :
  enumerates enum ->
  x ∈ index_ids (build_label_index enum f products labels stations) bucket label
  <->
  exists rid r prod,
    selected_product (norm_products products) (norm_labels labels) (routes f) rid
      = Some prod
    /\ (bucket = prod \/ bucket = "ALL")
    /\ find_route (routes f) rid = Some r
    /\ route_label r = label /\ label ≠ EmptyString
    /\ reaches f stations rid x.
Proof.
  intros He. rewrite index_ids_elem by done.
  assert (Hp : forall rid,
             (select_routes (norm_products products) (norm_labels labels) (routes f)).2
               !! rid
             = selected_product (norm_products products) (norm_labels labels)
                 (routes f) rid).
  { intros rid. unfold select_routes. rewrite select_routes_product_last.
    cbn [snd]. rewrite lookup_empty. by destruct (selected_product _ _ _ _). }
  split; intros (rid & r & prod & H & Hrest); exists rid, r, prod;
    (split; [|exact Hrest]); [by rewrite <- Hp|by rewrite Hp].
Qed.

(** X20.  When no two rows of [routes.txt] carry the same route id, a
    station id is listed under a bucket and a label exactly when some route row
    passes the filters, has that label (not empty) and a mapped type
    whose product is the bucket (any product for [ALL]), and reaches the
    station. *)
Theorem index_of_distinct_routes enum f products labels stations bucket label x :
  enumerates enum ->
  distinct_route_ids (routes f) ->
  x ∈ index_ids (build_label_index enum f products labels stations) bucket label
  <->
  exists r rid prod,
    In r (routes f)
    /\ selects (norm_products products) (norm_labels labels) r rid prod
    /\ (bucket = prod \/ bucket = "ALL")
    /\ route_label r = label /\ label ≠ EmptyString
    /\ reaches f stations rid x.
Proof.
  intros He Hd. rewrite index_ids_elem by done. split.
  - intros (rid & r & prod & Hp & Hb & Hr & Hl & Hne & Hx).
    apply select_routes_selects in Hp as (r' & Hin & Hsel).
    assert (r' = r) as -> by (by eapply selected_row_is_found).
    by exists r, rid, prod.
  - intros (r & rid & prod & Hin & Hsel & Hb & Hl & Hne & Hx).
    exists rid, r, prod. repeat split; try done.
    + apply select_routes_product_unique; [|right; by exists r].
      intros r' p' Hin' (_ & [Hrid' _]%nonempty_spec & Hp').
      destruct Hsel as (_ & [Hrid _]%nonempty_spec & Hp).
      rewrite (Hd r' r rid Hin' Hin Hrid' Hrid) in Hp'. congruence.
    + apply find_route_distinct; [done..|].
      by destruct Hsel as (_ & [Hrid _]%nonempty_spec & _).
Qed.

(** X21.  The list of a label under [ALL] is the union of its lists under the
    four products. *)
Theorem all_bucket_is_union enum f products labels stations label x :
  enumerates enum ->
  let m := build_label_index enum f products labels stations in
  x ∈ index_ids m "ALL" label
  <-> exists p, In p ["TRAM"; "UBAHN"; "SBAHN"; "BUS"] /\ x ∈ index_ids m p label.
Proof.
  intros He m. unfold m. split.
  - intros (rid & r & prod & Hp & Hb & H)%index_ids_elem; [|done].
    exists prod. split.
    + apply select_routes_selects in Hp as (r' & _ & _ & _ & Hp).
      by eapply route_type_product_values.
    + apply index_ids_elem; [done|]. exists rid, r, prod. tauto.
  - intros (p & _ & (rid & r & prod & Hp & Hb & H)%index_ids_elem); [|done].
    apply index_ids_elem; [done|]. exists rid, r, prod. tauto.
Qed.

(** X22.  The index holds nothing outside the filters: a station id is only
    listed under a label that is not empty, and under [ALL] or one of the
    four products, a requested one when products are requested.  When no
    two rows of [routes.txt] carry the same route id, the label is the
    normal form of a requested label when labels are requested. *)
Theorem index_respects_filters enum f products labels stations bucket label x :
  enumerates enum ->
  x ∈ index_ids (build_label_index enum f products labels stations) bucket label ->
  label ≠ EmptyString
  /\ (bucket = "ALL" \/ In bucket ["TRAM"; "UBAHN"; "SBAHN"; "BUS"])
  /\ (forall ps, products = Some ps -> ps ≠ ∅ ->
       bucket = "ALL" \/ exists p, p ∈ ps /\ bucket = upper p)
  /\ (distinct_route_ids (routes f) ->
       forall ls, labels = Some ls -> ls ≠ ∅ ->
       exists l, l ∈ ls /\ label = upper (strip l)).
Proof.
  intros He Hx. split; [|split; [|split]].
  - by apply index_ids_elem in Hx as (? & ? & ? & ? & ? & ? & ? & ? & ?).
  - apply index_ids_elem in Hx as (rid & r & prod & Hp & Hb & _); [|done].
    apply select_routes_selects in Hp as (r' & _ & _ & _ & Hp).
    destruct Hb as [->| ->]; [right|by left]. by eapply route_type_product_values.
  - intros ps -> Hps.
    apply index_ids_elem in Hx as (rid & r & prod & Hp & Hb & _); [|done].
    apply select_routes_selects in Hp as (r' & _ & Hpass & _ & Hp).
    destruct Hb as [->| ->]; [right|by left].
    unfold passes in Hpass. apply andb_true_iff in Hpass as [Hpass _].
    unfold norm_products in Hpass. rewrite bool_decide_eq_false_2 in Hpass by done.
    rewrite Hp in Hpass. simpl in Hpass.
    apply negb_true_iff, andb_false_iff in Hpass as [Hpass|Hpass].
    + apply negb_false_iff, bool_decide_eq_true_1 in Hpass.
      exfalso. apply Hps. apply set_eq. intros y.
      rewrite elem_of_empty. split; [|done]. intros Hy.
      assert (upper y ∈ (∅ : gset string)) as Hf
        by (rewrite <- Hpass; apply elem_of_map; by exists y).
      by apply elem_of_empty in Hf.
    + apply negb_false_iff, bool_decide_eq_true_1, elem_of_map in Hpass
        as (p & -> & Hin'). by exists p.
  - intros Hd ls -> Hls.
    apply index_ids_elem in Hx as (rid & r & prod & Hp & _ & Hr & <- & _); [|done].
    apply select_routes_selects in Hp as (r' & Hin & Hsel).
    assert (r' = r) as -> by (by eapply selected_row_is_found).
    destruct Hsel as (Hpass & _).
    unfold passes in Hpass. apply andb_true_iff in Hpass as [_ Hpass].
    unfold norm_labels in Hpass. rewrite bool_decide_eq_false_2 in Hpass by done.
    simpl in Hpass.
    apply negb_true_iff, andb_false_iff in Hpass as [Hpass|Hpass].
    + apply negb_false_iff, bool_decide_eq_true_1 in Hpass.
      exfalso. apply Hls. apply set_eq. intros y.
      rewrite elem_of_empty. split; [|done]. intros Hy.
      assert (upper (strip y) ∈ (∅ : gset string)) as Hf
        by (rewrite <- Hpass; apply elem_of_map; by exists y).
      by apply elem_of_empty in Hf.
    + apply negb_false_iff, bool_decide_eq_true_1, elem_of_map in Hpass
        as (l & Hl & Hin'). by exists l.
Qed.

End IndexContents.

Section IndexContentsExamples.
Import Py GtfsIndex Examples.

Lemma feed_distinct_ids_distinct : distinct_route_ids (routes feed_distinct_ids).
Proof.
  intros r r' rid Hr Hr' H H'.
  cbv [feed_distinct_ids feed_of routes] in Hr, Hr'. simpl in Hr, Hr'.
  destruct Hr as [<-|[<-|[<-|[]]]], Hr' as [<-|[<-|[<-|[]]]];
    try reflexivity; vm_compute in H, H'; congruence.
Qed.

(** The tram route of the example feed and the station of its stop. *)
Lemma index_ids_characterized_witness :
  enumerates in_order
  /\ ("de:1:2" ∈ index_ids (build_label_index in_order feed_distinct_ids None None
                              cached_stations) "TRAM" "19"
      <->
      exists rid r prod,
        selected_product (norm_products None) (norm_labels None)
          (routes feed_distinct_ids) rid = Some prod
        /\ ("TRAM" = prod \/ "TRAM" = "ALL")
        /\ find_route (routes feed_distinct_ids) rid = Some r
        /\ route_label r = "19" /\ "19" ≠ EmptyString
        /\ reaches feed_distinct_ids cached_stations rid "de:1:2").
Proof.
  split; [exact in_order_enumerates|].
  apply (index_ids_characterized in_order feed_distinct_ids None None cached_stations
           "TRAM" "19" "de:1:2").
  exact in_order_enumerates.
Defined.

Lemma index_of_distinct_routes_witness :
  enumerates in_order
  /\ distinct_route_ids (routes feed_distinct_ids)
  /\ ("de:1:3" ∈ index_ids (build_label_index in_order feed_distinct_ids None None
                              cached_stations) "BUS" "19"
      <->
      exists r rid prod,
        In r (routes feed_distinct_ids)
        /\ selects (norm_products None) (norm_labels None) r rid prod
        /\ ("BUS" = prod \/ "BUS" = "ALL")
        /\ route_label r = "19" /\ "19" ≠ EmptyString
        /\ reaches feed_distinct_ids cached_stations rid "de:1:3").
Proof.
  split; [exact in_order_enumerates|].
  split; [exact feed_distinct_ids_distinct|].
  apply (index_of_distinct_routes in_order feed_distinct_ids None None cached_stations
           "BUS" "19" "de:1:3");
    [exact in_order_enumerates|exact feed_distinct_ids_distinct].
Defined.

Lemma all_bucket_is_union_witness :
  enumerates in_order
  /\ (let m := build_label_index in_order feed_distinct_ids None None cached_stations in
      "de:1:3" ∈ index_ids m "ALL" "19"
      <-> exists p, In p ["TRAM"; "UBAHN"; "SBAHN"; "BUS"]
                    /\ "de:1:3" ∈ index_ids m p "19").
Proof.
  split; [exact in_order_enumerates|].
  apply (all_bucket_is_union in_order feed_distinct_ids None None cached_stations
           "19" "de:1:3").
  exact in_order_enumerates.
Defined.

(** The index of the trams only, requested in lower case. *)
Lemma index_respects_filters_witness :
  enumerates in_order
  /\ "de:1:2" ∈ index_ids (build_label_index in_order feed_distinct_ids
                             (Some {["tram"]}) None cached_stations) "TRAM" "19"
  /\ "19" ≠ EmptyString
  /\ ("TRAM" = "ALL" \/ In "TRAM" ["TRAM"; "UBAHN"; "SBAHN"; "BUS"])
  /\ (forall ps : gset string, Some ({["tram"]} : gset string) = Some ps -> ps ≠ ∅ ->
       "TRAM" = "ALL" \/ exists p, p ∈ ps /\ "TRAM" = upper p)
  /\ (distinct_route_ids (routes feed_distinct_ids) ->
       forall ls : gset string, None = Some ls -> ls ≠ ∅ ->
       exists l, l ∈ ls /\ "19" = upper (strip l)).
Proof.
  assert (H : "de:1:2" ∈ index_ids (build_label_index in_order feed_distinct_ids
                                      (Some {["tram"]}) None cached_stations)
                           "TRAM" "19") by decide_by_compute.
  split; [exact in_order_enumerates|]. split; [exact H|].
  exact (index_respects_filters in_order feed_distinct_ids (Some {["tram"]}) None
           cached_stations "TRAM" "19" "de:1:2" in_order_enumerates H).
Defined.

End IndexContentsExamples.

(** ** print_label_stations.py: resolving labels on an index *)

Section ResolveProperties.
Import Py GtfsIndex PrintLabelStations.

Lemma fold_fold_union_elem (g : string -> string -> gset string)
    (ps ls : list string) (acc : gset string) x :
  x ∈ fold_left (fun out p => fold_left (fun a l => a ∪ g p l) ls out) ps acc
  <-> x ∈ acc \/ exists p l, p ∈ ps /\ l ∈ ls /\ x ∈ g p l.
Proof.
  revert acc. induction ps as [|p ps IH]; intros acc; simpl.
  - split; [tauto|]. intros [H|(p & l & Hp & _)]; [done|]. by apply elem_of_nil in Hp.
  - rewrite IH, fold_union_elem. split.
    + intros [[H|(l & Hl & H)]|(p' & l & Hp & Hl & H)]; [tauto| |]; right.
      * exists p, l. split; [by left|done].
      * exists p', l. split; [by right|done].
    + intros [H|(p' & l & [->|Hp]%elem_of_cons & Hl & H)]; [tauto| |].
      * left. right. by exists l.
      * right. by exists p', l.
Qed.

Lemma collect_elem enum (index : mapping_t) (products labels : list string) x :
  resolve_enumerates enum ->
  x ∈ collect enum index products labels <->
  exists l, In l labels
    /\ (x ∈ index_ids index "ALL" (upper (strip l))
        \/ exists p, In p products
             /\ x ∈ index_ids index (upper (strip p)) (upper (strip l))).
Proof.
  intros He. unfold collect.
  rewrite fold_union_elem.
  rewrite (fold_fold_union_elem
             (fun p l => list_to_set (default [] (od_get (default [] (od_get index p)) l)))).
  rewrite elem_of_empty.
  setoid_rewrite (He RLabels _). setoid_rewrite (He RProducts _).
  setoid_rewrite elem_of_elements. setoid_rewrite elem_of_list_to_set.
  setoid_rewrite list_elem_of_In. setoid_rewrite in_map_iff.
  unfold index_ids. split.
  - intros [[[]|(p & l & (p0 & <- & Hp) & (l0 & <- & Hl) & H)]|(l & (l0 & <- & Hl) & H)].
    + exists l0. split; [done|]. right. by exists p0.
    + exists l0. split; [done|]. by left.
  - intros (l & Hl & [H|(p & Hp & H)]).
    + right. exists (upper (strip l)). split; [by exists l|]. done.
    + left. right. exists (upper (strip p)), (upper (strip l)).
      split; [by exists p|]. split; [by exists l|]. done.
Qed.

(** X23.  The result lists, in ascending order and once each, the station ids
    that the index holds for a requested label, normalised, under [ALL] or
    under a requested product, normalised. *)
Theorem resolve_stations_for_labels_spec enum (index : mapping_t)
    (products labels : list string) :
  resolve_enumerates enum ->
  let out := resolve_stations_for_labels enum index products labels in
  Sorted String.le out /\ NoDup out
  /\ forall x,
      x ∈ out <->
      exists l, In l labels
        /\ (x ∈ index_ids index "ALL" (upper (strip l))
            \/ exists p, In p products
                 /\ x ∈ index_ids index (upper (strip p)) (upper (strip l))).
Proof.
  intros He out. unfold out, resolve_stations_for_labels.
  split; [apply Sorted_merge_sort; apply _|].
  split; [unfold sorted; rewrite merge_sort_Permutation, (He ROut _); apply NoDup_elements|].
  intros x. unfold sorted.
  rewrite merge_sort_Permutation, (He ROut _), elem_of_elements.
  by apply collect_elem.
Qed.

(** X24.  On an index built by [build_label_index], the requested products do
    not change the result: every list of a product is within the list of
    the same label under [ALL], which is always consulted. *)
Theorem resolve_ignores_products e enum f ps ls stations
    (products labels : list string) :
  enumerates e ->
  resolve_enumerates enum ->
  let index := build_label_index e f ps ls stations in
  resolve_stations_for_labels enum index products labels
  = resolve_stations_for_labels enum index [] labels.
Proof.
  intros He Hr index. unfold resolve_stations_for_labels. do 2 f_equal.
  apply set_eq. intros x. rewrite !collect_elem by done. split.
  - intros (l & Hl & [H|(p & _ & H)]); exists l; (split; [done|]); left; [done|].
    by eapply index_ids_in_all.
  - intros (l & Hl & [H|(p & [] & _)]). exists l. split; [done|]. by left.
Qed.

End ResolveProperties.

Section ResolveExamples.
Import Py GtfsIndex PrintLabelStations Examples.

Lemma resolve_in_order_enumerates : resolve_enumerates resolve_in_order.
Proof. intros w s. reflexivity. Qed.

(** The label [19] of the example feed, requested with a blank before it
    and for the trams in lower case. *)
Lemma resolve_stations_for_labels_spec_witness :
  resolve_enumerates resolve_in_order
  /\ (let out :=
        resolve_stations_for_labels resolve_in_order
          (build_label_index in_order feed_distinct_ids None None
             cached_stations)
          ["tram"] [" 19"] in
      Sorted String.le out /\ NoDup out
      /\ forall x,
          x ∈ out <->
          exists l, In l [" 19"]
            /\ (x ∈ index_ids (build_label_index in_order feed_distinct_ids
                                 None None cached_stations) "ALL" (upper (strip l))
                \/ exists p, In p ["tram"]
                     /\ x ∈ index_ids (build_label_index in_order
                                         feed_distinct_ids None None cached_stations)
                                      (upper (strip p)) (upper (strip l)))).
Proof.
  split; [exact resolve_in_order_enumerates|].
  apply (resolve_stations_for_labels_spec resolve_in_order
           (build_label_index in_order feed_distinct_ids None None
              cached_stations)
           ["tram"] [" 19"]).
  exact resolve_in_order_enumerates.
Defined.

Lemma resolve_ignores_products_witness :
  enumerates in_order
  /\ resolve_enumerates resolve_in_order
  /\ (let index := build_label_index in_order feed_distinct_ids None None
                     cached_stations in
      resolve_stations_for_labels resolve_in_order index ["tram"] [" 19"]
      = resolve_stations_for_labels resolve_in_order index [] [" 19"]).
Proof.
  split; [exact in_order_enumerates|]. split; [exact resolve_in_order_enumerates|].
  apply (resolve_ignores_products in_order resolve_in_order
           feed_distinct_ids None None cached_stations ["tram"] [" 19"]);
    [exact in_order_enumerates|exact resolve_in_order_enumerates].
Defined.

(** On that index the trams alone give two stations, yet the result
    has the three stations of the label. *)
Lemma resolve_example_includes_bus_stations :
  resolve_stations_for_labels resolve_in_order
    (build_label_index in_order feed_distinct_ids None None cached_stations)
    ["tram"] [" 19"]
  = ["de:1:2"; "de:1:2:5"; "de:1:3"]
  /\ index_ids (build_label_index in_order feed_distinct_ids None None
                  cached_stations) "TRAM" "19"
     = ["de:1:2"; "de:1:2:5"].
Proof. split; by vm_compute. Qed.

End ResolveExamples.

(** ** cli.py: the station ids of the command [ingest] *)

Section CliProperties.
Import Py Departures GtfsIndex Ingest Cli.

Lemma stripped_set_parts text ids :
  stripped_set_of text = Some ids ->
  exists s, ids = list_to_set (map strip (split "," s)).
Proof.
  destruct text as [[|c s]|]; try done. intros [= <-]. by exists (String c s).
Qed.

Lemma stripped_set_nonempty text ids : stripped_set_of text = Some ids -> ids ≠ ∅.
Proof.
  intros (s & ->)%stripped_set_parts.
  destruct (split "," s) as [|p parts] eqn:E; [by destruct (split_nonempty "," s)|].
  intros H.
  assert (Hin : strip p ∈ (list_to_set (map strip (p :: parts)) : gset string))
    by (apply elem_of_list_to_set, list_elem_of_In; by left).
  rewrite H in Hin. by apply elem_of_empty in Hin.
Qed.

(** X25.  With the label index in use and labels given, the station ids
    that the command hands to the pass are those that the index lists
    for a requested label, upper-cased, under a requested product, or
    under [ALL] when no product is requested, together with the station
    ids given. *)
Theorem resolved_station_ids_spec enum (index : mapping_t) (product_set ls : gset string)
    (station_ids : option string) x :
  cli_enumerates enum ->
  ls ≠ ∅ ->
  exists resolved,
    resolved_station_ids enum true index product_set (Some ls) station_ids
    = Some resolved
    /\ (x ∈ resolved <->
        (exists prod lab,
            (prod ∈ product_set \/ (product_set = ∅ /\ prod = "ALL"))
            /\ lab ∈ ls /\ x ∈ index_ids index prod (upper lab))
        \/ (exists ids, stripped_set_of station_ids = Some ids /\ x ∈ ids)).
Proof.
  intros He Hls. unfold resolved_station_ids. simpl.
  rewrite bool_decide_eq_false_2 by done. simpl.
  set (prods := if bool_decide (product_set = ∅) then {["ALL"]} else product_set).
  assert (Hprods : forall prod, prod ∈ prods
            <-> prod ∈ product_set \/ (product_set = ∅ /\ prod = "ALL")).
  { intros prod. subst prods. case_bool_decide as Hp.
    - rewrite elem_of_singleton, Hp. split; [intros ->; by right|].
      intros [H|[_ H]]; [by apply elem_of_empty in H|done].
    - split; [by left|]. by intros [H|[H _]]. }
  set (resolved := fold_left _ _ _).
  assert (Hres : x ∈ resolved <->
            exists prod lab, prod ∈ prods /\ lab ∈ ls
                             /\ x ∈ index_ids index prod (upper lab)).
  { subst resolved.
    rewrite (fold_fold_union_elem
               (fun p l => list_to_set
                             (default [] (od_get (default [] (od_get index p)) (upper l))))).
    rewrite elem_of_empty.
    setoid_rewrite (He CLabels _). setoid_rewrite (He CProducts _).
    setoid_rewrite elem_of_elements. setoid_rewrite elem_of_list_to_set.
    unfold index_ids. split; [by intros [[]|H]|by right]. }
  destruct (stripped_set_of station_ids) as [ids|]; eexists; (split; [reflexivity|]).
  - rewrite elem_of_union, Hres. setoid_rewrite Hprods. split.
    + intros [H|H]; [by left|]. right. by exists ids.
    + intros [H|(ids' & [= <-] & H)]; [by left|by right].
  - rewrite Hres. setoid_rewrite Hprods. split; [by left|].
    by intros [H|(ids' & [=] & _)].
Qed.

(** X26.  Labels for which the index lists no station do not narrow the
    pass: with the label index in use and no station ids given, the
    command then does what it does without the label index, so no
    station is left out on account of the labels. *)
Theorem ingest_label_index_fallback enum db cache products labels station_names
    station_ids (index : mapping_t) fetch completion :
  cli_enumerates enum ->
  stripped_set_of station_ids = None ->
  (forall ls prod lab,
     stripped_set_of labels = Some ls ->
     prod ∈ product_set_of products \/ (product_set_of products = ∅ /\ prod = "ALL") ->
     lab ∈ ls ->
     index_ids index prod (upper lab) = []) ->
  ingest enum db cache products labels station_names station_ids true index
    fetch completion
  = ingest enum db cache products labels station_names station_ids false index
      fetch completion.
Proof.
  intros He Hids Hnone. unfold ingest, resolved_station_ids. rewrite Hids. simpl.
  destruct (stripped_set_of labels) as [ls|] eqn:El; [|done]. simpl.
  rewrite bool_decide_eq_false_2 by (by eapply stripped_set_nonempty). simpl.
  set (resolved := fold_left _ _ _).
  assert (Hres : resolved = ∅).
  { apply set_eq. intros x. subst resolved.
    rewrite (fold_fold_union_elem
               (fun p l => list_to_set
                             (default [] (od_get (default [] (od_get index p)) (upper l))))).
    rewrite elem_of_empty. split; [|done].
    intros [[]|(p & l & Hp & Hl & H)]. apply elem_of_list_to_set in H.
    rewrite (He CProducts _), elem_of_elements in Hp.
    rewrite (He CLabels _), elem_of_elements in Hl.
    fold (index_ids index p (upper l)) in H.
    rewrite (Hnone ls p l eq_refl) in H; [by apply elem_of_nil in H| |done].
    revert Hp. case_bool_decide as Hps.
    - intros ->%elem_of_singleton. by right.
    - by left. }
  rewrite Hres. unfold ingest_departures_for_products, select_stations.
  by rewrite bool_decide_eq_true_2 by done.
Qed.

End CliProperties.

Section CliExamples.
Import Py Departures GtfsIndex Ingest Cli Examples.
Local Open Scope Z_scope.

Lemma cli_in_order_enumerates : cli_enumerates cli_in_order.
Proof. intros w s. reflexivity. Qed.

(** The label [19] on the index of the example feed, no product
    requested. *)
Lemma resolved_station_ids_spec_witness :
  cli_enumerates cli_in_order
  /\ ({["19"]} : gset string) ≠ ∅
  /\ exists resolved,
       resolved_station_ids cli_in_order true
         (build_label_index in_order feed_distinct_ids None None cached_stations)
         ∅ (Some {["19"]}) None
       = Some resolved
       /\ ("de:1:3" ∈ resolved <->
           (exists prod lab,
               (prod ∈ (∅ : gset string) \/ ((∅ : gset string) = ∅ /\ prod = "ALL"))
               /\ lab ∈ ({["19"]} : gset string)
               /\ "de:1:3" ∈ index_ids (build_label_index in_order feed_distinct_ids
                                          None None cached_stations) prod (upper lab))
           \/ (exists ids, stripped_set_of None = Some ids /\ "de:1:3" ∈ ids)).
Proof.
  assert (Hne : ({["19"]} : gset string) ≠ ∅) by decide_by_compute.
  split; [exact cli_in_order_enumerates|]. split; [exact Hne|].
  exact (resolved_station_ids_spec cli_in_order
           (build_label_index in_order feed_distinct_ids None None cached_stations)
           ∅ {["19"]} None "de:1:3" cli_in_order_enumerates Hne).
Defined.

Lemma label_99_not_indexed ls prod lab :
  stripped_set_of (Some "99") = Some ls ->
  prod ∈ product_set_of "ALL" \/ (product_set_of "ALL" = ∅ /\ prod = "ALL") ->
  lab ∈ ls ->
  index_ids (build_label_index in_order feed_distinct_ids None None cached_stations)
    prod (upper lab) = [].
Proof.
  intros Hls Hprod Hlab.
  assert (ls = {["99"]}) as -> by (injection Hls as <-; by vm_compute).
  assert (Hps : product_set_of "ALL" = {["ALL"]}) by (by vm_compute).
  rewrite Hps in Hprod.
  apply elem_of_singleton in Hlab as ->.
  assert (prod = "ALL") as ->
    by (destruct Hprod as [H|[_ H]]; [by apply elem_of_singleton in H|done]).
  by vm_compute.
Qed.

(** A label that the index of the example feed does not have: the pass
    fetches both stations of the cache. *)
Lemma ingest_label_index_fallback_witness :
  cli_enumerates cli_in_order
  /\ stripped_set_of None = None
  /\ ingest cli_in_order pass_db [s1; s3] "ALL" (Some "99") None None true
       (build_label_index in_order feed_distinct_ids None None cached_stations)
       pass_fetch (fun l => l)
     = ingest cli_in_order pass_db [s1; s3] "ALL" (Some "99") None None false
         (build_label_index in_order feed_distinct_ids None None cached_stations)
         pass_fetch (fun l => l).
Proof.
  split; [exact cli_in_order_enumerates|]. split; [reflexivity|].
  apply (ingest_label_index_fallback cli_in_order pass_db [s1; s3] "ALL" (Some "99")
           None None
           (build_label_index in_order feed_distinct_ids None None cached_stations)
           pass_fetch (fun l => l));
    [exact cli_in_order_enumerates|reflexivity|exact label_99_not_indexed].
Defined.

End CliExamples.
